(** * Static-UPnP: the responder of [static_upnp/upnp_reciever.py]

    A shallow embedding of the request parser, of the template resolution
    ([create_fmt]), of the search responder, of the announcement pass, of
    shutdown and of the constructors of the two responder classes, with the
    properties the specification states about them.

    Python values are modelled as follows.
    - [bytes] objects are lists of bytes.
    - [str] objects are Rocq strings (code points below 256); [encode("ascii")]
      fails on a code point above 127, as in Python.
    - A raised exception is the [Raise] outcome of a computation; effects
      that happened before the exception was raised stay in the state.
    - [dict] objects are association lists kept in insertion order, an
      assignment to an existing key keeping that key's position. *)

From Stdlib Require Import List ZArith Bool Arith Lia.
From Stdlib Require Import Strings.String Strings.Ascii Strings.Byte.
From Stdlib Require Import Numbers.DecimalString.
Import ListNotations.

Set Implicit Arguments.

(** ** Python outcomes *)

Inductive exn : Type :=
| ValueError
| KeyError
| IndexError
| TypeError
| AttributeError
| UnicodeEncodeError
| OSError
| Unmodelled.

Inductive res (A : Type) : Type :=
| Ok (a : A)
| Raise (e : exn).

Arguments Ok {A} a.
Arguments Raise {A} e.

Definition is_ok {A} (r : res A) : bool :=
  match r with Ok _ => true | Raise _ => false end.

(** ** [bytes] and its methods *)

Module PyBytes.

Definition bytes := list byte.

Definition B (s : string) : bytes := list_byte_of_string s.

Definition LF : byte := x0a.
Definition CR : byte := x0d.
Definition SP : byte := x20.
Definition COLON : byte := x3a.

Fixpoint eqb (a b : bytes) : bool :=
  match a, b with
  | [], [] => true
  | x :: a', y :: b' => Byte.eqb x y && eqb a' b'
  | _, _ => false
  end.

(** [c in d] for a one-byte [c] *)
Definition has_byte (c : byte) (d : bytes) : bool :=
  existsb (fun x => Byte.eqb x c) d.

(** [d.startswith(p)] *)
Fixpoint startswith (p d : bytes) : bool :=
  match p, d with
  | [], _ => true
  | x :: p', y :: d' => Byte.eqb x y && startswith p' d'
  | _ :: _, [] => false
  end.

(** [d.replace(c, b"")] for a one-byte [c] *)
Definition remove (c : byte) (d : bytes) : bytes :=
  filter (fun x => negb (Byte.eqb x c)) d.

(** [d.split(sep)] for a one-byte [sep]: every occurrence separates. *)
Fixpoint split (sep : byte) (d : bytes) : list bytes :=
  match d with
  | [] => [[]]
  | c :: r =>
      if Byte.eqb c sep then [] :: split sep r
      else match split sep r with
           | h :: t => (c :: h) :: t
           | [] => [[c]]
           end
  end.

(** [d.split(sep, 1)] for a one-byte [sep]: only the first occurrence
    separates, so the result has one or two elements. *)
Fixpoint split1 (sep : byte) (d : bytes) : list bytes :=
  match d with
  | [] => [[]]
  | c :: r =>
      if Byte.eqb c sep then [[]; r]
      else match split1 sep r with
           | h :: t => (c :: h) :: t
           | [] => [[c]]
           end
  end.

(** The bytes [bytes.strip()] removes: space, tab, newline, carriage return,
    vertical tab and form feed. *)
Definition is_space (c : byte) : bool :=
  match c with
  | x20 | x09 | x0a | x0d | x0b | x0c => true
  | _ => false
  end.

Fixpoint lstrip (d : bytes) : bytes :=
  match d with
  | [] => []
  | c :: r => if is_space c then lstrip r else d
  end.

Definition rstrip (d : bytes) : bytes := rev (lstrip (rev d)).

(** [d.strip()] *)
Definition strip (d : bytes) : bytes := rstrip (lstrip d).

End PyBytes.

Import PyBytes.

(** Tuple unpacking of a list: [a, b = l] and [a, b, c = l] raise
    [ValueError] when the number of elements differs. *)
Definition unpack2 {A} (l : list A) : res (A * A) :=
  match l with
  | [a; b] => Ok (a, b)
  | _ => Raise ValueError
  end.

Definition unpack3 {A} (l : list A) : res (A * A * A) :=
  match l with
  | [a; b; c] => Ok (a, b, c)
  | _ => Raise ValueError
  end.

(** ** The request parser *)

Module Parser.

(** The sender of a datagram, as [recvfrom] returns it: host and port. *)
Definition addr : Type := string * Z.

(** [defaultdict(list)] with [bytes] keys. *)
Definition headers := list (bytes * list bytes).

(** [h[k]] read without the insertion a [defaultdict] makes on a miss. *)
Fixpoint headers_get (h : headers) (k : bytes) : list bytes :=
  match h with
  | [] => []
  | (k', vs) :: h' => if PyBytes.eqb k' k then vs else headers_get h' k
  end.

(** [h[k].append(v)] *)
Fixpoint headers_append (h : headers) (k v : bytes) : headers :=
  match h with
  | [] => [(k, [v])]
  | (k', vs) :: h' =>
      if PyBytes.eqb k' k then (k', vs ++ [v]) :: h'
      else (k', vs) :: headers_append h' k v
  end.

(** The [AttributeDict] that [parse_search_request] builds. *)
Record Request : Type := {
  METHOD : bytes;
  PATH : bytes;
  VERSION : bytes;
  HEADERS : headers;
  REMOTE : addr
}.

Definition recognized_verb (data : bytes) : bool :=
  startswith (B "M-SEARCH") data || startswith (B "NOTIFY") data.

(** The loop over the header lines. *)
Fixpoint parse_header_lines (lines : list bytes) (h : headers) : res headers :=
  match lines with
  | [] => Ok h
  | line :: rest =>
      let line := strip line in
      if (0 <? List.length line)%nat then
        match unpack2 (split1 COLON line) with
        | Ok (header, value) =>
            parse_header_lines rest (headers_append h header (strip value))
        | Raise e => Raise e
        end
      else parse_header_lines rest h
  end.

Definition parse_search_request (request : bytes * addr) : res (option Request) :=
  let '(data, sender) := request in
  if negb (recognized_verb data) then Ok None
  else
    match unpack2 (split1 LF (remove CR data)) with
    | Raise e => Raise e
    | Ok (http, hdrs) =>
        match unpack3 (split SP http) with
        | Raise e => Raise e
        | Ok (method, path, version) =>
            match parse_header_lines (split LF hdrs) [] with
            | Raise e => Raise e
            | Ok h =>
                Ok (Some {| METHOD := method; PATH := path; VERSION := version;
                            HEADERS := h; REMOTE := sender |})
            end
        end
    end.

Definition handler := bytes * addr -> res (option Request).

Definition request_handlers : list handler := [parse_search_request].

(** The loop of [parse_request] over a list of handlers. *)
Fixpoint parse_request_with (hs : list handler) (request : bytes * addr)
  : res (option Request) :=
  match hs with
  | [] => Ok None
  | h :: hs' =>
      match h request with
      | Raise e => Raise e
      | Ok (Some r) => Ok (Some r)
      | Ok None => parse_request_with hs' request
      end
  end.

Definition parse_request (request : bytes * addr) : res (option Request) :=
  parse_request_with request_handlers request.

End Parser.

(** ** [dict] objects with [str] keys *)

Module Dict.

Definition dict (V : Type) : Type := list (string * V).

Definition keys {V} (m : dict V) : list string := map fst m.

(** [m[k]], [None] standing for the [KeyError]. *)
Fixpoint get {V} (m : dict V) (k : string) : option V :=
  match m with
  | [] => None
  | (k', v) :: m' => if String.eqb k' k then Some v else get m' k
  end.

(** [m[k] = v]: an existing key keeps its place, a new key goes last. *)
Fixpoint set {V} (m : dict V) (k : string) (v : V) : dict V :=
  match m with
  | [] => [(k, v)]
  | (k', v') :: m' =>
      if String.eqb k' k then (k', v) :: m' else (k', v') :: set m' k v
  end.

End Dict.

Import Dict.

(** ** [str] objects, values and [str.format] *)

Module PyStr.

(** The values a field of a service can hold in this model. *)
Inductive value : Type :=
| VStr (s : string)
| VInt (n : Z)
| VBytes (b : bytes).

Definition BACKSLASH : ascii := "092"%char.
Definition QUOTE : ascii := "039"%char.
Definition DQUOTE : ascii := "034"%char.
Definition LBRACE : ascii := "{"%char.
Definition RBRACE : ascii := "}"%char.

Definition hexdigit (n : N) : ascii :=
  match n with
  | 0 => "0" | 1 => "1" | 2 => "2" | 3 => "3" | 4 => "4" | 5 => "5"
  | 6 => "6" | 7 => "7" | 8 => "8" | 9 => "9" | 10 => "a" | 11 => "b"
  | 12 => "c" | 13 => "d" | 14 => "e" | _ => "f"
  end%N%char.

(** One byte of [repr(b)] for a [bytes] object [b] quoted with [quote]. *)
Definition repr_byte (quote : ascii) (c : byte) : string :=
  let a := ascii_of_byte c in
  let n := N_of_ascii a in
  if Ascii.eqb a quote || Ascii.eqb a BACKSLASH then
    String BACKSLASH (String a EmptyString)
  else if (n =? 9)%N then String BACKSLASH "t"
  else if (n =? 10)%N then String BACKSLASH "n"
  else if (n =? 13)%N then String BACKSLASH "r"
  else if (n <? 32)%N || (127 <=? n)%N then
    String BACKSLASH
      (String "x" (String (hexdigit (N.shiftr n 4))
                     (String (hexdigit (N.land n 15)) EmptyString)))
  else String a EmptyString.

(** [repr(b)]: single quotes, unless [b] holds a single quote and no
    double quote. *)
Definition repr_bytes (b : bytes) : string :=
  let quote :=
    if has_byte (byte_of_ascii QUOTE) b && negb (has_byte (byte_of_ascii DQUOTE) b)
    then DQUOTE else QUOTE in
  String "b" (String quote
    (String.concat EmptyString (map (repr_byte quote) b)
       ++ String quote EmptyString)).

(** [str(n)] for an [int]. *)
Definition str_of_int (n : Z) : string := NilZero.string_of_int (Z.to_int n).

(** [format(v, "")], what a replacement field without conversion and
    without format specification renders. *)
Definition str_of_value (v : value) : string :=
  match v with
  | VStr s => s
  | VInt n => str_of_int n
  | VBytes b => repr_bytes b
  end.

Fixpoint string_forallb (p : ascii -> bool) (s : string) : bool :=
  match s with
  | EmptyString => true
  | String c s' => p c && string_forallb p s'
  end.

Definition is_digit (c : ascii) : bool :=
  let n := N_of_ascii c in (48 <=? n)%N && (n <=? 57)%N.

(** The characters that start attribute access, indexing, a conversion or
    a format specification inside a replacement field. *)
Definition is_special (c : ascii) : bool :=
  Ascii.eqb c "." || Ascii.eqb c "[" || Ascii.eqb c "!" || Ascii.eqb c ":".

(** The replacement field [{f}] of [s.format( **m)]: a name is looked up in
    the keyword arguments; an empty name or a number indexes the positional
    arguments, of which there are none. A field with attribute access,
    indexing, a conversion or a format specification is outside the model. *)
Definition format_field (m : dict value) (f : string) : res string :=
  if negb (string_forallb (fun c => negb (is_special c)) f) then Raise Unmodelled
  else if String.eqb f EmptyString then Raise IndexError
  else if string_forallb is_digit f then
    if (String.length f <=? 18)%nat then Raise IndexError else Raise Unmodelled
  else
    match get m f with
    | Some v => Ok (str_of_value v)
    | None => Raise KeyError
    end.

(** The scanner of [str.format]: in literal text, after an opening brace,
    after a closing brace in literal text, or inside a replacement field. *)
Inductive scan : Type :=
| Text
| Open
| Close
| Field (acc : string).

Fixpoint format_scan (m : dict value) (sc : scan) (s : string) (out : string)
  : res string :=
  match s with
  | EmptyString =>
      match sc with
      | Text => Ok out
      | _ => Raise ValueError
      end
  | String c s' =>
      match sc with
      | Text =>
          if Ascii.eqb c LBRACE then format_scan m Open s' out
          else if Ascii.eqb c RBRACE then format_scan m Close s' out
          else format_scan m Text s' (out ++ String c EmptyString)
      | Open =>
          if Ascii.eqb c LBRACE then
            format_scan m Text s' (out ++ String LBRACE EmptyString)
          else if Ascii.eqb c RBRACE then
            match format_field m EmptyString with
            | Ok r => format_scan m Text s' (out ++ r)
            | Raise e => Raise e
            end
          else format_scan m (Field (String c EmptyString)) s' out
      | Close =>
          if Ascii.eqb c RBRACE then
            format_scan m Text s' (out ++ String RBRACE EmptyString)
          else Raise ValueError
      | Field acc =>
          if Ascii.eqb c RBRACE then
            match format_field m acc with
            | Ok r => format_scan m Text s' (out ++ r)
            | Raise e => Raise e
            end
          else if Ascii.eqb c LBRACE then Raise Unmodelled
          else format_scan m (Field (acc ++ String c EmptyString)) s' out
      end
  end.

(** [s.format( **m)] *)
Definition format (m : dict value) (s : string) : res string :=
  format_scan m Text s EmptyString.

(** [s.replace("\n", "\r\n")] *)
Fixpoint crlf (s : string) : string :=
  match s with
  | EmptyString => EmptyString
  | String c s' =>
      if Ascii.eqb c "010" then String "013" (String "010" (crlf s'))
      else String c (crlf s')
  end.

(** [s.encode("ascii")] *)
Fixpoint encode_ascii (s : string) : res bytes :=
  match s with
  | EmptyString => Ok []
  | String c s' =>
      if (N_of_ascii c <? 128)%N then
        match encode_ascii s' with
        | Ok b => Ok (byte_of_ascii c :: b)
        | Raise e => Raise e
        end
      else Raise UnicodeEncodeError
  end.

(** [template.format( **fmt).replace("\n", "\r\n").encode("ascii")] *)
Definition render (template : string) (fmt : dict value) : res bytes :=
  match format fmt template with
  | Ok s => encode_ascii (crlf s)
  | Raise e => Raise e
  end.

End PyStr.

Import PyStr.

(** ** Service descriptors *)

Module Descriptor.

Section WithWorld.

(** What a value producer of the configuration can read and change. *)
Variable World : Type.

(** A zero-argument callable of the configuration. *)
Definition producer : Type := World -> value * World.

(** An entry of [params]: [hasattr(p, '__call__')] separates the two. *)
Inductive param : Type :=
| Literal (v : value)
| Computed (p : producer).

Record service_descriptor : Type := {
  params : dict param;
  services : list (dict value);
  NOTIFY : string;
  OK : string
}.

End WithWorld.

Arguments Literal {World} v.
Arguments Computed {World} p.

End Descriptor.

(** ** The responder *)

Module Responder.

Import Parser Descriptor.

Inductive unit_id : Type :=
| reciever_thread
| schedule_thread.

(** What the responder does to the outside, in the order it does it. *)
Inductive event : Type :=
| EvCall (key : string)
| EvSendTo (data : bytes) (dest : addr)
| EvLogSearch (sts : list bytes) (found : bool)
| EvLogInfo (msg : string)
| EvLogWarn (msg : string)
| EvSetRunning (v : Z)
| EvJoin (u : unit_id)
| EvStart (u : unit_id) (as_uid : Z)
| EvSocket (family kind proto : string)
| EvSetsockopt (level option : string) (v : Z)
| EvBind (host : string) (port : Z)
| EvSetgroups (gs : list Z)
| EvSetgid (g : Z)
| EvSetuid (u : Z)
| EvUmask (mask : Z).

Section Engine.

Variable World : Type.

(** [sock.sendto(data, dest)] of the operating system: whether the call
    returns or raises, and the world after it. *)
Variable sock_sendto : World -> bytes -> addr -> res unit * World.

(** The state: the world of the value producers and of the network, the
    shared flag [running], the user id of the process, and what was done
    so far. *)
Record state : Type := {
  world : World;
  running : Z;
  uid : Z;
  trace : list event
}.

Definition log (e : event) (st : state) : state :=
  {| world := world st; running := running st; uid := uid st;
     trace := trace st ++ [e] |}.

Definition with_world (w : World) (st : state) : state :=
  {| world := w; running := running st; uid := uid st; trace := trace st |}.

Definition with_running (v : Z) (st : state) : state :=
  {| world := world st; running := v; uid := uid st; trace := trace st |}.

Definition with_uid (u : Z) (st : state) : state :=
  {| world := world st; running := running st; uid := u; trace := trace st |}.

(** Computations: they read and change the state, and return or raise. *)
Definition M (A : Type) : Type := state -> res A * state.

Definition ret {A} (a : A) : M A := fun st => (Ok a, st).

Definition raise {A} (e : exn) : M A := fun st => (Raise e, st).

Definition bind {A B} (c : M A) (k : A -> M B) : M B :=
  fun st =>
    match c st with
    | (Ok a, st') => k a st'
    | (Raise e, st') => (Raise e, st')
    end.

Definition lift {A} (r : res A) : M A := fun st => (r, st).

Definition emit (e : event) : M unit :=
  fun st => (Ok tt, log e st).

Local Notation "x <- c ;; k" := (bind c (fun x => k))
  (at level 61, c at next level, right associativity).
Local Notation "c ;;; k" := (bind c (fun _ => k))
  (at level 61, right associativity).

(** A [for] loop whose body may raise. *)
Fixpoint for_each {A} (body : A -> M unit) (l : list A) : M unit :=
  match l with
  | [] => ret tt
  | x :: l' => body x ;;; for_each body l'
  end.

(** A [for] loop that updates a local variable. *)
Fixpoint fold_each {A S} (body : S -> A -> M S) (l : list A) (s : S) : M S :=
  match l with
  | [] => ret s
  | x :: l' => s' <- body s x ;; fold_each body l' s'
  end.

(** [p()] for the producer stored under [key]. *)
Definition call (key : string) (p : producer World) : M value :=
  fun st =>
    let '(v, w) := p (world st) in
    (Ok v, with_world w (log (EvCall key) st)).

(** [self.sock.sendto(data, dest)] *)
Definition sendto (data : bytes) (dest : addr) : M unit :=
  fun st =>
    let '(r, w) := sock_sendto (world st) data dest in
    (r, with_world w (log (EvSendTo data dest) st)).

(** [m[k]] *)
Definition getitem {V} (m : dict V) (k : string) : res V :=
  match get m k with
  | Some v => Ok v
  | None => Raise KeyError
  end.

(** *** [create_fmt] *)

(** The first loop: every param is copied, a callable one is called. *)
Definition eval_params (params : dict (param World)) : M (dict value) :=
  fold_each
    (fun fmt key =>
       p <- lift (getitem params key) ;;
       match p with
       | Computed f => v <- call key f ;; ret (set fmt key v)
       | Literal v => ret (set fmt key v)
       end)
    (keys params) [].

(** The second loop: the entries of the service are laid over. *)
Definition overlay (fmt : dict value) (service : dict value) : dict value :=
  fold_left
    (fun fmt key =>
       match get service key with
       | Some v => set fmt key v
       | None => fmt
       end)
    (keys service) fmt.

(** The third loop: every [str] entry is formatted with the mapping as it
    is at that moment. *)
Fixpoint substitute (ks : list string) (fmt : dict value) : res (dict value) :=
  match ks with
  | [] => Ok fmt
  | key :: ks' =>
      match get fmt key with
      | Some (VStr s) =>
          match format fmt s with
          | Ok s' => substitute ks' (set fmt key (VStr s'))
          | Raise e => Raise e
          end
      | Some _ => substitute ks' fmt
      | None => Raise KeyError
      end
  end.

Definition create_fmt (params : dict (param World)) (service : dict value)
  : M (dict value) :=
  fmt <- eval_params params ;;
  let fmt := overlay fmt service in
  lift (substitute (keys fmt) fmt).

(** *** The responder object *)

Record responder : Type := {
  address : string;
  port : Z;
  buffer_size : Z;
  self_services : option (list (service_descriptor World))
}.

Variable self : responder.

(** [for service_descriptor in self.services]: [None] is not iterable. *)
Definition iter_services : M (list (service_descriptor World)) :=
  match self_services self with
  | Some ds => ret ds
  | None => raise TypeError
  end.

(** The body of the loops of [do_notify] for one service. *)
Definition notify_service (nts : bytes) (d : service_descriptor World)
  (service : dict value) : M unit :=
  fmt <- create_fmt (params d) service ;;
  let fmt := set fmt "nts" (VBytes nts) in
  response_data <- lift (render (NOTIFY d) fmt) ;;
  sendto response_data (address self, port self).

(** The two loops of [do_notify]. *)
Definition notify_all (nts : bytes) (ds : list (service_descriptor World))
  : M unit :=
  for_each (fun d => for_each (notify_service nts d) (services d)) ds.

Definition do_notify (nts : bytes) : M unit :=
  ds <- iter_services ;;
  notify_all nts ds.

(** [send] of the base class. *)
Definition send (d : service_descriptor World) (response_data : bytes)
  (REQUEST : addr) : M unit :=
  sendto response_data REQUEST.

(** [fmt['st'].encode("ascii")]: only a [str] has [encode]. *)
Definition encoded_st (fmt : dict value) : res bytes :=
  match getitem fmt "st" with
  | Ok (VStr s) => encode_ascii s
  | Ok _ => Raise AttributeError
  | Raise e => Raise e
  end.

(** The body of the innermost loop of [respond_ok_static], for one value of
    the ST header; [found] is the local variable of that name. *)
Definition respond_type (d : service_descriptor World) (fmt : dict value)
  (request : Request) (found : bool) (request_type : bytes) : M bool :=
  skip <- (if negb (startswith (B "ssdp:") request_type) then
             st <- lift (encoded_st fmt) ;;
             ret (negb (PyBytes.eqb st request_type))
           else ret false) ;;
  if skip : bool then ret found
  else
    response_data <- lift (render (OK d) fmt) ;;
    send d response_data (REMOTE request) ;;;
    ret true.

(** The body of the loop over the services of one descriptor. *)
Definition respond_service (d : service_descriptor World) (request : Request)
  (found : bool) (service : dict value) : M bool :=
  fmt <- create_fmt (params d) service ;;
  fold_each (respond_type d fmt request)
    (headers_get (HEADERS request) (B "ST")) found.

(** [respond_ok_static]. The test [b'MX' in request] looks for a [bytes]
    key among the [str] keys of the request and is never true. *)
Definition respond_all (request : Request)
  (ds : list (service_descriptor World)) (found : bool) : M bool :=
  fold_each
    (fun found d => fold_each (respond_service d request) (services d) found)
    ds found.

Definition respond_ok_static (request : Request) : M unit :=
  ds <- iter_services ;;
  found <- respond_all request ds false ;;
  emit (EvLogSearch (headers_get (HEADERS request) (B "ST")) found).

Definition respond_ok (request : Request) : M unit :=
  match self_services self with
  | Some _ => respond_ok_static request
  | None => ret tt
  end.

(** One turn of the loop of [run], for the datagram taken from the queue. *)
Definition run_step (rec : bytes * addr) : M unit :=
  request <- lift (parse_request rec) ;;
  match request with
  | None => ret tt
  | Some request =>
      if PyBytes.eqb (METHOD request) (B "M-SEARCH") then respond_ok request
      else ret tt
  end.

(** [run] on the datagrams the queue delivers, in order. *)
Fixpoint run (queue : list (bytes * addr)) : M unit :=
  match queue with
  | [] => ret tt
  | rec :: queue' =>
      fun st =>
        if (running st =? 0)%Z then (Ok tt, st)
        else (run_step rec ;;; run queue') st
  end.

(** [self.running.value = v] *)
Definition set_running (v : Z) : M unit :=
  fun st => (Ok tt, with_running v (log (EvSetRunning v) st)).

(** [schedule_handler], for a scheduler whose period elapses [fires] times
    before the flag is cleared: the settle delay and the waiting between
    the passes are not modelled. *)
Definition schedule_handler (fires : nat) : M unit :=
  do_notify (B "ssdp:alive") ;;;
  for_each (fun _ => do_notify (B "ssdp:alive")) (repeat tt fires) ;;;
  emit (EvLogWarn "Scheduler shutting down...").

Definition shutdown : M unit :=
  set_running 0 ;;;
  emit (EvJoin schedule_thread) ;;;
  emit (EvJoin reciever_thread) ;;;
  do_notify (B "ssdp:goodbye") ;;;
  emit (EvLogInfo "Shutdown") ;;;
  emit (EvLogInfo "---------------------------").

(** *** The constructor *)

(** [socket.socket(family, kind, proto)]: the system gives a raw socket to
    the superuser only. *)
Definition socket (family kind proto : string) : M unit :=
  fun st =>
    let st' := log (EvSocket family kind proto) st in
    if String.eqb kind "SOCK_RAW" && negb (uid st =? 0)%Z
    then (Raise OSError, st') else (Ok tt, st').

(** [setup_sockets] of the base class; its calls are taken to succeed. *)
Definition setup_sockets (self : responder) : M unit :=
  socket "AF_INET" "SOCK_DGRAM" "IPPROTO_UDP" ;;;
  emit (EvSetsockopt "SOL_SOCKET" "SO_REUSEADDR" 1) ;;;
  emit (EvSetsockopt "IPPROTO_IP" "IP_MULTICAST_TTL" 2) ;;;
  emit (EvBind "" (port self)).

(** [Process(target=...).start()]: the new process inherits the user id. *)
Definition start (u : unit_id) : M unit :=
  fun st => (Ok tt, log (EvStart u (uid st)) st).

Definition default_address : string := "239.255.255.250".
Definition default_port : Z := 1900.
Definition default_buffer_size : Z := 4096.

Definition or_default {A} (a : option A) (d : A) : A :=
  match a with Some x => x | None => d end.

(** [__init__] of the base class. An argument that is absent is [None] here
    and takes its default; [setup] is the [setup_sockets] of the class of
    the object under construction. *)
Definition init (setup : responder -> M unit)
  (address : option string) (port buffer_size : option Z)
  (services : option (list (service_descriptor World))) : M responder :=
  let self := {| address := or_default address default_address;
                 port := or_default port default_port;
                 buffer_size := or_default buffer_size default_buffer_size;
                 self_services := services |} in
  setup self ;;;
  (fun st => (Ok tt, with_running 1 st)) ;;;
  start reciever_thread ;;;
  start schedule_thread ;;;
  ret self.

Definition UPnPServiceResponder := init setup_sockets.

End Engine.

End Responder.


(** ** The spoofing responder *)

Module Spoofing.

Import Descriptor Responder.

Section Spoofing.

Variable World : Type.

(** The user and group databases: [pwd.getpwnam(name).pw_uid] and
    [grp.getgrnam(name).gr_gid], [None] standing for the [KeyError]. *)
Variable getpwnam : string -> option Z.
Variable getgrnam : string -> option Z.

Local Notation "x <- c ;; k" := (bind c (fun x => k))
  (at level 61, c at next level, right associativity).
Local Notation "c ;;; k" := (bind c (fun _ => k))
  (at level 61, right associativity).

(** The attributes of the object; the three of the subclass are [None]
    until they are assigned. *)
Record spoofing_responder : Type := {
  base : responder World;
  group : option string;
  user : option string;
  interface : option string
}.

(** Reading an attribute that was not assigned. *)
Definition getattr {A} (a : option A) : M World A :=
  match a with
  | Some x => ret x
  | None => raise AttributeError
  end.

(** [setup_sockets] of the subclass. *)
Definition setup_sockets (self : spoofing_responder) : M World unit :=
  socket "AF_INET" "SOCK_RAW" "IPPROTO_RAW" ;;;
  socket "AF_PACKET" "SOCK_RAW" "" ;;;
  ifname <- getattr (interface self) ;;
  emit (EvBind ifname 0).

Definition lookup (db : string -> option Z) (name : string) : M World Z :=
  match db name with
  | Some n => ret n
  | None => raise KeyError
  end.

(** [os.setuid(u)] *)
Definition setuid (u : Z) : M World unit :=
  fun st => (Ok tt, with_uid u (log (EvSetuid u) st)).

Definition drop_privileges (uid_name gid_name : string) : M World unit :=
  fun st =>
    if negb (uid st =? 0)%Z then (Ok tt, st)
    else
      (running_uid <- lookup getpwnam uid_name ;;
       running_gid <- lookup getgrnam gid_name ;;
       emit (EvSetgroups []) ;;;
       emit (EvSetgid running_gid) ;;;
       setuid running_uid ;;;
       emit (EvUmask 63)) st.

Definition default_user : string := "nobody".
Definition default_group : string := "nogroup".
Definition default_interface : string := "eth0".

(** [__init__] of the subclass, [setup] being the [setup_sockets] that the
    constructor of the base class finds on the object. While that
    constructor runs, the attributes of the subclass are not assigned. *)
Definition init_with (setup : spoofing_responder -> M World unit)
  (address : option string) (port buffer_size : option Z)
  (services : option (list (service_descriptor World)))
  (user group interface : option string) : M World spoofing_responder :=
  b <- init
         (fun b => setup {| base := b; group := None; user := None;
                            interface := None |})
         address port buffer_size services ;;
  let self := {| base := b;
                 group := Some (or_default group default_group);
                 user := Some (or_default user default_user);
                 interface := Some (or_default interface default_interface) |} in
  drop_privileges (or_default user default_user)
                  (or_default group default_group) ;;;
  ret self.

Definition SpoofingUPnPServiceResponder := init_with setup_sockets.

End Spoofing.

End Spoofing.

(** ** What the specification says of the parser *)

Module ParserSpec.

Import Parser.

(** What precedes the first [sep]: everything when there is none. *)
Fixpoint before (sep : byte) (d : bytes) : bytes :=
  match d with
  | [] => []
  | c :: r => if Byte.eqb c sep then [] else c :: before sep r
  end.

(** What follows the first [sep]: nothing when there is none. *)
Fixpoint after (sep : byte) (d : bytes) : bytes :=
  match d with
  | [] => []
  | c :: r => if Byte.eqb c sep then r else after sep r
  end.

Definition count (sep : byte) (d : bytes) : nat :=
  List.length (filter (fun x => Byte.eqb x sep) d).

(** A header line is acceptable when it is blank or holds a colon. *)
Definition line_ok (line : bytes) : bool :=
  match strip line with
  | [] => true
  | l => has_byte COLON l
  end.

(** The request line and the header block of a datagram: what precedes and
    what follows the first line break, carriage returns left out. *)
Definition request_line (data : bytes) : bytes := before LF (remove CR data).
Definition header_block (data : bytes) : bytes := after LF (remove CR data).

(** A well-formed datagram has a line break, a request line of three
    tokens separated by single spaces, and acceptable header lines. *)
Definition well_formed (data : bytes) : bool :=
  has_byte LF (remove CR data)
  && (count SP (request_line data) =? 2)%nat
  && forallb line_ok (split LF (header_block data)).

(** The name and the trimmed value of every non-blank header line, in the
    order of the lines. *)
Definition fields_of (lines : list bytes) : list (bytes * bytes) :=
  flat_map
    (fun line =>
       match strip line with
       | [] => []
       | l => [(before COLON l, strip (after COLON l))]
       end)
    lines.

Definition header_fields (data : bytes) : list (bytes * bytes) :=
  fields_of (split LF (header_block data)).

(** The values given to the header [h], in their order of appearance. *)
Definition values_of (h : bytes) (fields : list (bytes * bytes)) : list bytes :=
  map snd (filter (fun f => PyBytes.eqb (fst f) h) fields).

End ParserSpec.

(** ** What the specification says of template resolution *)

Module TemplateSpec.

Import Descriptor.

Definition mem {V} (k : string) (m : dict V) : bool :=
  existsb (String.eqb k) (keys m).

(** The merged mapping: the evaluated params in their order, each with the
    value of the service where the service has the key, then the entries
    of the service under other keys, in their order. *)
Definition upd (service : dict value) (e : string * value)
  : string * value :=
  (fst e, match get service (fst e) with Some v => v | None => snd e end).

Definition merged (evaluated service : dict value) : dict value :=
  (map (upd service) evaluated
   ++ filter (fun e => negb (mem (fst e) evaluated)) service)%list.

(** One pass over the entries [todo], in order. [done] holds the entries
    before them, already processed, and [rest] the entries after them, not
    processed yet: a [str] entry is formatted with the mapping made of
    [done], of itself and the entries that follow it in [todo], and of
    [rest]. *)
Fixpoint resolve_entries (done todo rest : dict value) : res (dict value) :=
  match todo with
  | [] => Ok done
  | (k, VStr s) :: todo' =>
      match format (done ++ todo ++ rest)%list s with
      | Ok s' => resolve_entries (done ++ [(k, VStr s')])%list todo' rest
      | Raise e => Raise e
      end
  | (k, v) :: todo' => resolve_entries (done ++ [(k, v)])%list todo' rest
  end.

Definition single_pass (m : dict value) : res (dict value) :=
  resolve_entries [] m [].

(** The placeholder [{name}]. *)
Definition placeholder (name : string) : string :=
  String LBRACE (name ++ String RBRACE EmptyString).

Definition is_brace (c : ascii) : bool :=
  Ascii.eqb c LBRACE || Ascii.eqb c RBRACE.

(** A name that a placeholder looks up among the keys of the mapping. *)
Definition plain_name (f : string) : bool :=
  string_forallb (fun c => negb (is_special c) && negb (is_brace c)) f
  && negb (String.eqb f EmptyString)
  && negb (string_forallb is_digit f).

Section WithWorld.

Variable World : Type.

(** The values of the params, the producers being called in the order of
    the entries, each in the world the one before it left. *)
Fixpoint evaluated (params : dict (param World)) (w : World)
  : dict value * World :=
  match params with
  | [] => ([], w)
  | (k, Literal v) :: params' =>
      let '(m, w') := evaluated params' w in ((k, v) :: m, w')
  | (k, Computed p) :: params' =>
      let '(v, w1) := p w in
      let '(m, w') := evaluated params' w1 in ((k, v) :: m, w')
  end.

(** The keys of the params that hold a producer. *)
Definition computed_keys (params : dict (param World)) : list string :=
  flat_map (fun e => match snd e with
                     | Computed _ => [fst e]
                     | Literal _ => []
                     end) params.

(** A producer that leaves the counter [c] of the world at least as high
    as it found it. *)
Definition keeps (c : World -> Z) (e : string * param World) : Prop :=
  match snd e with
  | Computed q => forall w, (c w <= c (snd (q w)))%Z
  | Literal _ => True
  end.

End WithWorld.

End TemplateSpec.

(** ** What the specification says of search-target matching *)

Module ResponderSpec.

Import Parser Descriptor Responder.

Definition is_call (e : event) : bool :=
  match e with EvCall _ => true | _ => false end.

(** The datagrams handed to [sendto], in order. *)
Definition sends (evs : list event) : list (bytes * addr) :=
  flat_map (fun e => match e with
                     | EvSendTo d a => [(d, a)]
                     | _ => []
                     end) evs.

Section WithWorld.

Variable World : Type.

(** Every service with its descriptor, in the order of the two loops. *)
Definition all_services (ds : list (service_descriptor World))
  : list (service_descriptor World * dict value) :=
  flat_map (fun d => map (pair d) (services d)) ds.

(** A state that follows another: the flag and the user id are the same,
    and the trace is longer by [evs]. *)
Definition follows (st : state World) (evs : list event) (st' : state World)
  : Prop :=
  running st' = running st /\ uid st' = uid st /\
  trace st' = (trace st ++ evs)%list.

(** The state after the producers under the keys [ks] were called and
    left the world [w]. *)
Definition after_calls (ks : list string) (w : World) (st : state World)
  : state World :=
  {| world := w; running := running st; uid := uid st;
     trace := (trace st ++ map EvCall ks)%list |}.

(** [fmt] is what [create_fmt] returns for the service in some state, and
    [calls] what it does there: calls of producers only. *)
Definition resolves (d : service_descriptor World) (service : dict value)
  (fmt : dict value) (calls : list event) : Prop :=
  forallb is_call calls = true /\
  exists st st', create_fmt (params d) service st = (Ok fmt, st') /\
                 follows st calls st'.

(** What is done for one service in an announcement pass: its fields are
    resolved and one datagram, rendered from the template [NOTIFY] with
    the field [nts], is sent to [dest]. *)
Definition announced (dest : addr) (nts : bytes)
  (ds : service_descriptor World * dict value) (seg : list event) : Prop :=
  exists fmt calls data,
    resolves (fst ds) (snd ds) fmt calls /\
    render (NOTIFY (fst ds)) (set fmt "nts" (VBytes nts)) = Ok data /\
    seg = (calls ++ [EvSendTo data dest])%list.

End WithWorld.

End ResponderSpec.

(** ** A configuration to run the definitions on *)

Module Examples.

Import Parser Descriptor Responder.

Local Open Scope string_scope.

(** The world: a boot counter, and the outcomes of the next calls of
    [sendto] ([false] for a call that raises [OSError]); every call after
    those succeeds. *)
Definition W : Type := Z * list bool.

Definition sendto0 (w : W) (data : bytes) (dest : addr) : res unit * W :=
  match snd w with
  | [] => (Ok tt, w)
  | ok :: r => (if ok : bool then Ok tt else Raise OSError, (fst w, r))
  end.

(** A producer that returns the counter and increments it. *)
Definition bootid : producer W :=
  fun w => (VInt (fst w), ((fst w + 1)%Z, snd w)).

Definition params0 : dict (param W) :=
  [("bootid", Computed bootid);
   ("ip", Literal (VStr "10.0.0.1"));
   ("location", Literal (VStr "http://{ip}/{name}.xml"));
   ("name", Literal (VStr "default"))].

Definition service1 : dict value :=
  [("st", VStr "urn:test:device:1");
   ("name", VStr "one");
   ("usn", VStr "{uuid}");
   ("uuid", VStr "uuid:{bootid}")].

Definition service2 : dict value :=
  [("st", VStr "urn:test:device:2");
   ("uuid", VStr "uuid:2");
   ("usn", VStr "{uuid}")].

Definition descriptor0 : service_descriptor W :=
  {| params := params0;
     services := [service1; service2];
     NOTIFY := "NOTIFY * HTTP/1.1 NT: {st} NTS: {nts} USN: {usn}";
     OK := "HTTP/1.1 200 OK ST: {st} USN: {usn} LOCATION: {location}" |}.

Definition self0 : responder W :=
  {| address := default_address;
     port := default_port;
     buffer_size := default_buffer_size;
     self_services := Some [descriptor0] |}.

(** The state of a running responder that did nothing yet. *)
Definition st0 (sends : list bool) : state W :=
  {| world := (0%Z, sends); running := 1; uid := 1000; trace := [] |}.

Definition requester : addr := ("192.168.1.7"%string, 50000%Z).

(** A search request for the target [target], with an MX header. *)
Definition search (target : string) : bytes :=
  (B "M-SEARCH * HTTP/1.1" ++ [CR; LF]
   ++ B "MX: 3" ++ [CR; LF]
   ++ B "ST: " ++ B target ++ [CR; LF; CR; LF])%list.

(** A search request with the ST header twice. *)
Definition search2 : bytes :=
  (B "M-SEARCH * HTTP/1.1" ++ [LF]
   ++ B "ST: urn:test:device:2" ++ [LF]
   ++ B "MAN: ssdp:discover" ++ [LF]
   ++ B "ST:ssdp:all" ++ [LF])%list.

(** A request line of two tokens. *)
Definition short_line : bytes := (B "M-SEARCH *" ++ [CR; LF])%list.

Definition request_of (data : bytes) : Request :=
  match parse_request (data, requester) with
  | Ok (Some r) => r
  | _ => {| METHOD := []; PATH := []; VERSION := []; HEADERS := [];
            REMOTE := requester |}
  end.

(** The user and group databases of a host. *)
Definition getpwnam0 (name : string) : option Z :=
  if String.eqb name "nobody" then Some 65534%Z else None.

Definition getgrnam0 (name : string) : option Z :=
  if String.eqb name "nogroup" then Some 65534%Z else None.

(** The state of a process started by the superuser. *)
Definition root0 : state W :=
  {| world := (0%Z, []); running := 0; uid := 0; trace := [] |}.

End Examples.

(** ** [send] of the spoofing responder *)

Module SpoofingSend.

Import Parser Descriptor Responder Spoofing.

Section Send.

Variable World : Type.

(** The modules [ip] and [udp] that [send] imports are not part of the
    program: whether the import succeeds, and what their functions
    return or raise, is left open. *)
Variable udp_packet : Type.
Variable ip_packet : Type.
Variable import_ip_udp : res unit.
Variable udp_Packet : Z -> Z -> bytes -> res udp_packet.
Variable udp_assemble : udp_packet -> Z -> res bytes.
Variable ip_Packet : string -> param World -> bytes -> Z -> Z -> res ip_packet.
Variable ip_assemble : ip_packet -> Z -> res bytes.

(** [raw_sock.sendto(data, dest)] of the operating system. *)
Variable raw_sendto : World -> bytes -> addr -> res unit * World.

Local Notation "x <- c ;; k" := (bind c (fun x => k))
  (at level 61, c at next level, right associativity).
Local Notation "c ;;; k" := (bind c (fun _ => k))
  (at level 61, right associativity).

Definition IPPROTO_UDP : Z := 17.

(** [t.REMOTE] for a tuple [t]: a tuple has no such attribute. *)
Definition tuple_REMOTE (t : addr) : res addr := Raise AttributeError.

(** [send] of the subclass, for an object whose attributes [port] and
    [raw_sock] are assigned; [REQUEST] is the tuple that
    [respond_ok_static] passes, the sender of the request. The calls of
    [logger.debug] are left out. *)
Definition send (self : spoofing_responder World)
  (d : service_descriptor World) (response_data : bytes) (REQUEST : addr)
  : M World unit :=
  lift import_ip_udp ;;;
  response_packet <-
    lift (udp_Packet (snd REQUEST) (port (base self)) response_data) ;;
  src <- lift (getitem (params d) "ip") ;;
  payload <- lift (udp_assemble response_packet 0) ;;
  ip_packet <- lift (ip_Packet (fst REQUEST) src payload IPPROTO_UDP 15) ;;
  data <- lift (udp_assemble response_packet 0) ;;
  frame <- lift (ip_assemble ip_packet 0) ;;
  dest <- lift (tuple_REMOTE REQUEST) ;;
  sendto raw_sendto frame dest.

End Send.

End SpoofingSend.

(** ** What is observed of traces and of rendered datagrams *)

Module Observed.

Import Parser Responder.

(** Some datagram was handed to [sendto]. *)
Definition has_send (evs : list event) : bool :=
  existsb (fun e => match e with EvSendTo _ _ => true | _ => false end) evs.

(** An event that, if it is a send, is a send to [dest]. *)
Definition sent_to (dest : addr) (e : event) : Prop :=
  forall data d, e = EvSendTo data d -> d = dest.

(** Every line feed comes right after a carriage return; [after_cr] tells
    whether the byte before the first one is a carriage return. *)
Fixpoint lf_follows_cr (after_cr : bool) (d : bytes) : bool :=
  match d with
  | [] => true
  | c :: r =>
      (if Byte.eqb c LF then after_cr else true)
      && lf_follows_cr (Byte.eqb c CR) r
  end.

Definition is_ascii (c : ascii) : bool := (N_of_ascii c <? 128)%N.

(** No leading and no trailing whitespace. *)
Definition trimmed (d : bytes) : Prop :=
  match d with
  | [] => True
  | c :: _ => is_space c = false /\ is_space (last d c) = false
  end.

End Observed.

(** ** What a search is answered with *)

Module SearchSpec.

Import Parser Descriptor Responder Observed.

Local Open Scope string_scope.

(** The value starts with the generic-discovery prefix. *)
Definition generic (v : bytes) : bool := startswith (B "ssdp:") v.

(** The value is, byte for byte, the resolved [st] field. *)
Definition equals_st (fmt : dict value) (v : bytes) : bool :=
  match get fmt "st" with
  | Some (VStr s) => PyBytes.eqb (B s) v
  | _ => false
  end.

(** The rule of the search: the generic prefix, or the exact target. *)
Definition target_matches (fmt : dict value) (v : bytes) : bool :=
  generic v || equals_st fmt v.

(** Why the resolved [st] field cannot be compared with a value: it is
    missing, it is not a [str], or it is not ASCII. *)
Definition st_error (fmt : dict value) : option exn :=
  match get fmt "st" with
  | None => Some KeyError
  | Some (VStr s) =>
      if string_forallb is_ascii s then None else Some UnicodeEncodeError
  | Some _ => Some AttributeError
  end.

Section Pass.

Variable World : Type.
Variable sock_sendto : World -> bytes -> addr -> res unit * World.

(** Steps taken one after the other, each from the state that the one
    before it left. *)
Inductive chain {A : Type}
  (step : A -> state World -> state World -> Prop)
  : list A -> state World -> state World -> Prop :=
| chain_nil : forall st, chain step [] st st
| chain_cons : forall x l st st1 st2,
    step x st st1 -> chain step l st1 st2 -> chain step (x :: l) st st2.

(** One value of the ST header, for a service whose resolved fields are
    [fmt]: when the value matches, the response is rendered and sent to
    the requester, and the send returns; otherwise nothing happens. *)
Definition answers (d : service_descriptor World) (fmt : dict value)
  (request : Request) (v : bytes) (st st' : state World) : Prop :=
  if target_matches fmt v then
    exists data, render (OK d) fmt = Ok data /\
                 sendto sock_sendto data (REMOTE request) st = (Ok tt, st')
  else st' = st.

(** One service: its fields are resolved in the state reached, then every
    value of the ST header is answered in turn. *)
Definition serves (request : Request)
  (ds : service_descriptor World * dict value) (st st' : state World)
  : Prop :=
  exists fmt st1,
    create_fmt (params (fst ds)) (snd ds) st = (Ok fmt, st1) /\
    chain (answers (fst ds) fmt request)
      (headers_get (HEADERS request) (B "ST")) st1 st'.

(** The value [v] ends the handler with the exception [e]: the value is
    specific and the [st] field cannot be compared with it, or the value
    matches and the rendering or the send raises. *)
Definition fails_at (d : service_descriptor World) (fmt : dict value)
  (request : Request) (v : bytes) (e : exn) (st st' : state World) : Prop :=
  (generic v = false /\ st_error fmt = Some e /\ st' = st)
  \/ (target_matches fmt v = true /\
      (generic v = true \/ st_error fmt = None) /\
      ((render (OK d) fmt = Raise e /\ st' = st)
       \/ exists data,
            render (OK d) fmt = Ok data /\
            sendto sock_sendto data (REMOTE request) st = (Raise e, st'))).

(** The service ends the handler with the exception [e]: the resolution
    of its fields raises, or one value of the ST header does, the values
    before it having been answered. *)
Definition fails_in (request : Request)
  (ds : service_descriptor World * dict value) (e : exn)
  (st st' : state World) : Prop :=
  create_fmt (params (fst ds)) (snd ds) st = (Raise e, st')
  \/ exists fmt st1 vs v vs' st2,
       create_fmt (params (fst ds)) (snd ds) st = (Ok fmt, st1) /\
       headers_get (HEADERS request) (B "ST") = (vs ++ v :: vs')%list /\
       chain (answers (fst ds) fmt request) vs st1 st2 /\
       fails_at (fst ds) fmt request v e st2 st'.

End Pass.

End SearchSpec.

(** ** More configurations to run the definitions on *)

Module MoreExamples.

Import Parser Descriptor Responder Spoofing Examples.

Local Open Scope string_scope.

(** A presence announcement as another device sends it. *)
Definition announcement : bytes :=
  (B "NOTIFY * HTTP/1.1" ++ [CR; LF]
   ++ B "NT: upnp:rootdevice" ++ [CR; LF]
   ++ B "NTS: ssdp:alive" ++ [CR; LF; CR; LF])%list.

(** A responder made without services. *)
Definition self_none : responder W :=
  {| address := default_address;
     port := default_port;
     buffer_size := default_buffer_size;
     self_services := None |}.

(** A service without [st], following one that has it. *)
Definition service_no_st : dict value :=
  [("name", VStr "anonymous"); ("usn", VStr "uuid:3")].

Definition descriptor1 : service_descriptor W :=
  {| params := params0;
     services := [service1; service_no_st; service2];
     NOTIFY := "NOTIFY * HTTP/1.1 NTS: {nts} USN: {usn}";
     OK := "HTTP/1.1 200 OK USN: {usn}" |}.

Definition self1 : responder W :=
  {| address := default_address;
     port := default_port;
     buffer_size := default_buffer_size;
     self_services := Some [descriptor1] |}.

(** A service whose location names a field that nothing defines. *)
Definition service_dangling : dict value :=
  [("st", VStr "urn:test:device:4"); ("location", VStr "{scheme}")].

(** A search for the target of [service2]. *)
Definition search_two : Request := request_of (search "urn:test:device:2").

(** A spoofing responder whose attributes are all assigned. *)
Definition spoofer : spoofing_responder W :=
  {| base := self0;
     group := Some default_group;
     user := Some default_user;
     interface := Some default_interface |}.

(** The state of a process of the superuser that did nothing yet. *)
Definition root1 : state W :=
  {| world := (0%Z, []); running := 1; uid := 0; trace := [] |}.

End MoreExamples.

(** * Properties *)

(** ** Facts about [bytes] *)

Module PyBytesFacts.

Import ParserSpec.

Lemma byte_eqb_refl (x : byte) : Byte.eqb x x = true.
Proof. now apply Byte.byte_dec_lb. Qed.

Lemma eqb_eq (a b : bytes) : PyBytes.eqb a b = true <-> a = b.
Proof.
  revert b; induction a as [|x a IH]; intros [|y b]; simpl; split;
    try congruence; try reflexivity.
  - intros H. apply andb_true_iff in H as [Hxy Hab].
    apply Byte.byte_dec_bl in Hxy. apply IH in Hab. congruence.
  - intros H. injection H as -> ->.
    rewrite byte_eqb_refl. simpl. now apply IH.
Qed.

Lemma eqb_refl (a : bytes) : PyBytes.eqb a a = true.
Proof. now apply eqb_eq. Qed.

Lemma eqb_neq (a b : bytes) : PyBytes.eqb a b = false <-> a <> b.
Proof.
  split.
  - intros H E. apply eqb_eq in E. congruence.
  - intros H. destruct (PyBytes.eqb a b) eqn:E; [|reflexivity].
    apply eqb_eq in E. contradiction.
Qed.

(** [split1] cuts at the first separator, when there is one. *)
Lemma split1_has (sep : byte) (d : bytes) :
  has_byte sep d = true -> split1 sep d = [before sep d; after sep d].
Proof.
  induction d as [|c r IH]; simpl; [discriminate|].
  destruct (Byte.eqb c sep); simpl; [reflexivity|].
  intros H. now rewrite (IH H).
Qed.

Lemma split1_hasnt (sep : byte) (d : bytes) :
  has_byte sep d = false -> split1 sep d = [d].
Proof.
  induction d as [|c r IH]; simpl; [reflexivity|].
  destruct (Byte.eqb c sep); simpl; [discriminate|].
  intros H. now rewrite (IH H).
Qed.

(** [split] yields one piece more than there are separators. *)
Lemma split_length (sep : byte) (d : bytes) :
  List.length (split sep d) = S (count sep d).
Proof.
  unfold count. induction d as [|c r IH]; simpl; [reflexivity|].
  destruct (Byte.eqb c sep); simpl.
  - now rewrite IH.
  - destruct (split sep r); simpl in *; [discriminate | assumption].
Qed.

Lemma unpack2_split1 (sep : byte) (d : bytes) :
  unpack2 (split1 sep d) =
  if has_byte sep d then Ok (before sep d, after sep d) else Raise ValueError.
Proof.
  destruct (has_byte sep d) eqn:H.
  - now rewrite split1_has.
  - now rewrite split1_hasnt.
Qed.

Lemma unpack3_ok {A} (l : list A) :
  List.length l = 3%nat ->
  exists a b c, l = [a; b; c] /\ unpack3 l = Ok (a, b, c).
Proof.
  destruct l as [|a [|b [|c [|x l]]]]; simpl; try discriminate.
  intros _. now exists a, b, c.
Qed.

Lemma unpack3_bad {A} (l : list A) :
  List.length l <> 3%nat -> unpack3 l = Raise ValueError.
Proof.
  destruct l as [|a [|b [|c [|x l]]]]; simpl; try reflexivity.
  intros H. now contradiction H.
Qed.

End PyBytesFacts.

(** ** Facts about the parser *)

Module ParserFacts.

Import Parser ParserSpec PyBytesFacts.

Lemma headers_get_append (h : headers) (k v k' : bytes) :
  headers_get (headers_append h k v) k' =
  if PyBytes.eqb k k' then (headers_get h k' ++ [v])%list else headers_get h k'.
Proof.
  induction h as [|[k0 vs] h IH]; simpl.
  - destruct (PyBytes.eqb k k'); reflexivity.
  - destruct (PyBytes.eqb k0 k) eqn:E0; simpl.
    + apply eqb_eq in E0. subst k0.
      destruct (PyBytes.eqb k k'); reflexivity.
    + destruct (PyBytes.eqb k0 k') eqn:E1.
      * apply eqb_eq in E1. subst k0.
        assert (PyBytes.eqb k k' = false) as ->; [|reflexivity].
        apply eqb_neq. apply eqb_neq in E0. congruence.
      * apply IH.
Qed.

Lemma values_of_app (h : bytes) (f g : list (bytes * bytes)) :
  values_of h (f ++ g) = (values_of h f ++ values_of h g)%list.
Proof. unfold values_of. now rewrite filter_app, map_app. Qed.

Lemma parse_header_lines_cons (line : bytes) (rest : list bytes) (h : headers) :
  parse_header_lines (line :: rest) h =
  match strip line with
  | [] => parse_header_lines rest h
  | l =>
      if has_byte COLON l
      then parse_header_lines rest
             (headers_append h (before COLON l) (strip (after COLON l)))
      else Raise ValueError
  end.
Proof.
  cbn [parse_header_lines]. rewrite unpack2_split1.
  destruct (strip line) as [|c l]; [reflexivity|].
  remember (c :: l) as sl. replace (0 <? List.length sl)%nat with true.
  - destruct (has_byte COLON sl); reflexivity.
  - subst sl. reflexivity.
Qed.

Lemma fields_of_cons (line : bytes) (rest : list bytes) :
  fields_of (line :: rest) =
  (match strip line with
   | [] => []
   | l => [(before COLON l, strip (after COLON l))]
   end ++ fields_of rest)%list.
Proof. reflexivity. Qed.

(** The loop over acceptable header lines returns, and it adds to every
    header its values in the order of the lines. *)
Lemma parse_header_lines_ok (lines : list bytes) :
  forallb line_ok lines = true ->
  forall h0, exists h,
    parse_header_lines lines h0 = Ok h /\
    forall k, headers_get h k
              = (headers_get h0 k ++ values_of k (fields_of lines))%list.
Proof.
  induction lines as [|line rest IH]; intros Hok h0.
  - exists h0. split; [reflexivity|]. intros k. unfold fields_of. simpl.
    now rewrite app_nil_r.
  - cbn [forallb] in Hok. apply andb_true_iff in Hok as [Hline Hrest].
    unfold line_ok in Hline.
    rewrite parse_header_lines_cons, fields_of_cons.
    destruct (strip line) as [|c l] eqn:Es.
    + apply (IH Hrest).
    + cbv beta iota zeta in Hline |- *. remember (c :: l) as sl. rewrite Hline.
      destruct (IH Hrest (headers_append h0 (before COLON sl)
                            (strip (after COLON sl)))) as [h [Hh Hget]].
      exists h. split; [exact Hh|]. intros k. rewrite Hget.
      rewrite headers_get_append, values_of_app.
      unfold values_of at 2. cbn [filter fst snd map].
      destruct (PyBytes.eqb (before COLON sl) k); cbn [map snd app];
        [now rewrite <- app_assoc | reflexivity].
Qed.

(** The loop raises [ValueError] on a line that is not acceptable. *)
Lemma parse_header_lines_bad (lines : list bytes) :
  forallb line_ok lines = false ->
  forall h0, parse_header_lines lines h0 = Raise ValueError.
Proof.
  induction lines as [|line rest IH]; intros Hbad h0; [discriminate|].
  cbn [forallb] in Hbad. unfold line_ok in Hbad.
  rewrite parse_header_lines_cons.
  destruct (strip line) as [|c l] eqn:Es.
  - apply (IH Hbad).
  - cbv beta iota zeta in Hbad |- *. remember (c :: l) as sl.
    destruct (has_byte COLON sl); [apply (IH Hbad) | reflexivity].
Qed.

(** The outcome of [parse_request] on every datagram. *)
Lemma parse_request_cases (data : bytes) (sender : addr) :
  parse_request (data, sender) =
  if negb (recognized_verb data) then Ok None
  else if well_formed data then
    match split SP (request_line data),
          parse_header_lines (split LF (header_block data)) [] with
    | [m; p; v], Ok h =>
        Ok (Some {| METHOD := m; PATH := p; VERSION := v; HEADERS := h;
                    REMOTE := sender |})
    | _, _ => Raise ValueError
    end
  else Raise ValueError.
Proof.
  unfold parse_request, request_handlers, parse_request_with,
    parse_search_request, well_formed, request_line, header_block.
  destruct (negb (recognized_verb data)); [reflexivity|].
  rewrite unpack2_split1.
  destruct (has_byte LF (remove CR data)); simpl; [|reflexivity].
  destruct (Nat.eqb_spec (count SP (before LF (remove CR data))) 2) as [E|E].
  - destruct (@unpack3_ok bytes (split SP (before LF (remove CR data))))
      as (m & p & v & El & Eu).
    { now rewrite split_length, E. }
    rewrite Eu, El. simpl.
    destruct (forallb line_ok (split LF (after LF (remove CR data)))) eqn:Hl.
    + destruct (parse_header_lines_ok _ Hl []) as [h [Hh _]].
      now rewrite Hh.
    + now rewrite (parse_header_lines_bad _ Hl).
  - rewrite unpack3_bad; [reflexivity|].
    rewrite split_length. intros H. apply E. now injection H.
Qed.

(** A well-formed datagram with a recognized verb is parsed. *)
Lemma parse_request_ok (data : bytes) (sender : addr) :
  recognized_verb data = true -> well_formed data = true ->
  exists r,
    parse_request (data, sender) = Ok (Some r) /\
    REMOTE r = sender /\
    split SP (request_line data) = [METHOD r; PATH r; VERSION r] /\
    forall h, headers_get (HEADERS r) h = values_of h (header_fields data).
Proof.
  intros Hv Hwf. rewrite parse_request_cases, Hv, Hwf. cbn [negb].
  unfold well_formed in Hwf.
  apply andb_true_iff in Hwf as [Hwf Hlines].
  apply andb_true_iff in Hwf as [_ Hcount].
  apply Nat.eqb_eq in Hcount.
  destruct (@unpack3_ok bytes (split SP (request_line data)))
    as (m & p & v & El & _).
  { now rewrite split_length, Hcount. }
  destruct (parse_header_lines_ok _ Hlines []) as [h [Hh Hget]].
  rewrite El, Hh.
  eexists. split; [reflexivity|]. cbn [REMOTE METHOD PATH VERSION HEADERS].
  repeat split. intros k. now rewrite Hget.
Qed.

End ParserFacts.

(** ** Facts about computations and loops *)

Module EngineFacts.

Import Parser Descriptor Responder ResponderSpec.

Section Facts.

Variable World : Type.
Variable sock_sendto : World -> bytes -> addr -> res unit * World.

Let state : Type := Responder.state World.
Let M (A : Type) : Type := Responder.M World A.

Lemma bind_ok {A B} (c : M A) (k : A -> M B) (st st1 : state) (a : A) :
  c st = (Ok a, st1) -> bind c k st = k a st1.
Proof. unfold bind. now intros ->. Qed.

Lemma bind_raise {A B} (c : M A) (k : A -> M B) (st st1 : state) (e : exn) :
  c st = (Raise e, st1) -> bind c k st = (Raise e, st1).
Proof. unfold bind. now intros ->. Qed.

Lemma bind_inv_ok {A B} (c : M A) (k : A -> M B) (st st' : state) (b : B) :
  bind c k st = (Ok b, st') ->
  exists a st1, c st = (Ok a, st1) /\ k a st1 = (Ok b, st').
Proof.
  unfold bind. destruct (c st) as [[a|e] st1]; intros H.
  - now exists a, st1.
  - discriminate.
Qed.

Lemma follows_refl (st : state) : follows st [] st.
Proof. unfold follows. now rewrite app_nil_r. Qed.

Lemma follows_trans (st st1 st2 : state) (e1 e2 : list event) :
  follows st e1 st1 -> follows st1 e2 st2 -> follows st (e1 ++ e2) st2.
Proof.
  unfold follows. intros (-> & -> & H1) (-> & -> & H2).
  repeat split. now rewrite H2, H1, app_assoc.
Qed.

Lemma follows_log (st : state) (e : event) : follows st [e] (log e st).
Proof. now unfold follows. Qed.

Lemma for_each_app {A} (body : A -> M unit) (l1 l2 : list A) (st : state) :
  for_each body (l1 ++ l2) st =
  match for_each body l1 st with
  | (Ok _, st1) => for_each body l2 st1
  | (Raise e, st1) => (Raise e, st1)
  end.
Proof.
  revert st. induction l1 as [|x l1 IH]; intros st; simpl; [reflexivity|].
  unfold bind. destruct (body x st) as [[[]|e] st1]; [apply IH | reflexivity].
Qed.

Lemma fold_each_app {A S} (body : S -> A -> M S) (l1 l2 : list A) (s : S)
  (st : state) :
  fold_each body (l1 ++ l2) s st =
  match fold_each body l1 s st with
  | (Ok s1, st1) => fold_each body l2 s1 st1
  | (Raise e, st1) => (Raise e, st1)
  end.
Proof.
  revert s st. induction l1 as [|x l1 IH]; intros s st; simpl; [reflexivity|].
  unfold bind. destruct (body s x st) as [[s1|e] st1]; [apply IH | reflexivity].
Qed.

(** A loop whose body extends the trace extends it by the pieces of its
    turns, whether it returns or raises; what holds of every event of a
    turn holds of every event of the loop. *)
Lemma fold_each_follows {A S} (body : S -> A -> M S)
  (Q : event -> Prop) (P : A -> list event -> Prop) (l : list A) :
  (forall s x st r st', body s x st = (r, st') ->
     exists evs, follows st evs st' /\ Forall Q evs
                 /\ (is_ok r = true -> P x evs)) ->
  forall s st r st', fold_each body l s st = (r, st') ->
    exists evs, follows st evs st' /\ Forall Q evs /\
      (is_ok r = true ->
       exists segs, evs = List.concat segs /\ Forall2 P l segs).
Proof.
  intros Hbody. induction l as [|x l IH]; intros s st r st'; simpl.
  - unfold ret. intros [= <- <-]. exists []. split; [apply follows_refl|].
    split; [constructor|]. intros _. exists []. now split.
  - unfold bind. destruct (body s x st) as [[s1|e] st1] eqn:Eb.
    + intros Hl. destruct (Hbody _ _ _ _ _ Eb) as (e1 & F1 & Q1 & P1).
      destruct (IH _ _ _ _ Hl) as (e2 & F2 & Q2 & P2).
      exists (e1 ++ e2)%list. split; [eapply follows_trans; eassumption|].
      split; [apply Forall_app; now split|].
      intros Hr. destruct (P2 Hr) as (segs & -> & HF).
      exists (e1 :: segs). split; [reflexivity|].
      constructor; [now apply P1 | exact HF].
    + intros [= <- <-]. destruct (Hbody _ _ _ _ _ Eb) as (e1 & F1 & Q1 & _).
      exists e1. split; [exact F1|]. split; [exact Q1 | discriminate].
Qed.

Lemma for_each_fold {A} (body : A -> M unit) (l : list A) (st : state) :
  for_each body l st = fold_each (fun _ x => body x) l tt st.
Proof.
  revert st. induction l as [|x l IH]; intros st; simpl; [reflexivity|].
  unfold bind. destruct (body x st) as [[[]|e] st1]; [apply IH | reflexivity].
Qed.

Lemma for_each_follows {A} (body : A -> M unit)
  (Q : event -> Prop) (P : A -> list event -> Prop) (l : list A) :
  (forall x st r st', body x st = (r, st') ->
     exists evs, follows st evs st' /\ Forall Q evs
                 /\ (is_ok r = true -> P x evs)) ->
  forall st r st', for_each body l st = (r, st') ->
    exists evs, follows st evs st' /\ Forall Q evs /\
      (is_ok r = true ->
       exists segs, evs = List.concat segs /\ Forall2 P l segs).
Proof.
  intros Hbody st r st'. rewrite for_each_fold.
  apply (@fold_each_follows A unit (fun _ x => body x) Q P).
  intros _ x. apply Hbody.
Qed.

(** The pieces of nested loops, put end to end. *)
Lemma Forall2_flat_map {A B C} (f : A -> list B)
  (P : B -> list C -> Prop) (l : list A) (evss : list (list C)) :
  Forall2 (fun x evs => exists segs, evs = List.concat segs
                                     /\ Forall2 P (f x) segs) l evss ->
  exists segs, List.concat evss = List.concat segs
               /\ Forall2 P (flat_map f l) segs.
Proof.
  induction 1 as [|x evs l evss (segs & -> & Hx) _ (segs' & E & IH)].
  - exists []. now split.
  - exists (segs ++ segs')%list. cbn [List.concat flat_map].
    rewrite concat_app, E. split; [reflexivity|]. now apply Forall2_app.
Qed.

Lemma Forall2_map_l {A B C} (f : A -> B) (P : B -> C -> Prop)
  (l : list A) (l' : list C) :
  Forall2 (fun x y => P (f x) y) l l' -> Forall2 P (map f l) l'.
Proof. induction 1; cbn; constructor; assumption. Qed.

(** The trace says by what a state follows another. *)
Lemma follows_unique (st st' : state) (e1 e2 : list event) :
  follows st e1 st' -> follows st e2 st' -> e1 = e2.
Proof.
  intros (_ & _ & H1) (_ & _ & H2). rewrite H1 in H2.
  now apply app_inv_head in H2.
Qed.

End Facts.

End EngineFacts.

(** ** Facts about [dict] *)

Module DictFacts.

Section Facts.

Context {V : Type}.

Implicit Types (m a b : dict V) (k : string) (v : V).

Lemma keys_app a b : keys (a ++ b) = (keys a ++ keys b)%list.
Proof. apply map_app. Qed.

Lemma get_notin m k : ~ In k (keys m) -> get m k = None.
Proof.
  induction m as [|[k0 v0] m IH]; simpl; [reflexivity|]. intros H.
  destruct (String.eqb_spec k0 k) as [E|E]; [tauto|]. apply IH. tauto.
Qed.

Lemma get_in m k : In k (keys m) -> exists v, get m k = Some v.
Proof.
  induction m as [|[k0 v0] m IH]; simpl; [tauto|]. intros H.
  destruct (String.eqb_spec k0 k) as [E|E]; [now exists v0|].
  apply IH. tauto.
Qed.

Lemma get_some_in m k v : get m k = Some v -> In k (keys m).
Proof.
  intros H. destruct (in_dec string_dec k (keys m)) as [Hin|Hin];
    [exact Hin|]. rewrite (get_notin _ _ Hin) in H. discriminate.
Qed.

Lemma get_app_notin a b k : ~ In k (keys a) -> get (a ++ b) k = get b k.
Proof.
  induction a as [|[k0 v0] a IH]; simpl; [reflexivity|]. intros H.
  destruct (String.eqb_spec k0 k) as [E|E]; [tauto|]. apply IH. tauto.
Qed.

Lemma get_app_in a b k : In k (keys a) -> get (a ++ b) k = get a k.
Proof.
  induction a as [|[k0 v0] a IH]; simpl; [tauto|]. intros H.
  destruct (String.eqb_spec k0 k) as [E|E]; [reflexivity|]. apply IH. tauto.
Qed.

Lemma get_cons_same m k v : get ((k, v) :: m) k = Some v.
Proof. simpl. now rewrite String.eqb_refl. Qed.

Lemma get_cons_other m k k' v : k <> k' -> get ((k, v) :: m) k' = get m k'.
Proof. simpl. intros H. now destruct (String.eqb_spec k k'). Qed.

Lemma set_notin m k v : ~ In k (keys m) -> set m k v = (m ++ [(k, v)])%list.
Proof.
  induction m as [|[k0 v0] m IH]; simpl; [reflexivity|]. intros H.
  destruct (String.eqb_spec k0 k) as [E|E]; [tauto|]. rewrite IH; tauto.
Qed.

Lemma set_app_notin a b k v :
  ~ In k (keys a) -> set (a ++ b) k v = (a ++ set b k v)%list.
Proof.
  induction a as [|[k0 v0] a IH]; simpl; [reflexivity|]. intros H.
  destruct (String.eqb_spec k0 k) as [E|E]; [tauto|]. rewrite IH; tauto.
Qed.

Lemma set_cons_same m k v v' : set ((k, v') :: m) k v = (k, v) :: m.
Proof. simpl. now rewrite String.eqb_refl. Qed.

Lemma keys_set_in m k v : In k (keys m) -> keys (set m k v) = keys m.
Proof.
  induction m as [|[k0 v0] m IH]; simpl; [tauto|]. intros H.
  destruct (String.eqb_spec k0 k) as [E|E]; simpl; [reflexivity|].
  rewrite IH; tauto.
Qed.

Lemma get_set_same m k v : get (set m k v) k = Some v.
Proof.
  induction m as [|[k0 v0] m IH]; simpl.
  - now rewrite String.eqb_refl.
  - destruct (String.eqb_spec k0 k) as [E|E]; simpl.
    + subst. now rewrite String.eqb_refl.
    + destruct (String.eqb_spec k0 k); [contradiction | exact IH].
Qed.

Lemma get_set_other m k k' v : k <> k' -> get (set m k v) k' = get m k'.
Proof.
  intros H. induction m as [|[k0 v0] m IH]; simpl.
  - now destruct (String.eqb_spec k k').
  - destruct (String.eqb_spec k0 k) as [E|E]; simpl.
    + subst. now destruct (String.eqb_spec k k').
    + now rewrite IH.
Qed.

Lemma nodup_keys_set m k v : NoDup (keys m) -> NoDup (keys (set m k v)).
Proof.
  intros H. destruct (in_dec string_dec k (keys m)) as [Hin|Hin].
  - now rewrite keys_set_in.
  - rewrite set_notin, keys_app by exact Hin. simpl.
    apply NoDup_app; [exact H | apply NoDup_cons; [tauto | constructor] |].
    intros x Hx [<-|[]]. contradiction.
Qed.

End Facts.

End DictFacts.

(** ** Facts about [str.format] *)

Module FormatFacts.

Import TemplateSpec.

Lemma string_app_assoc (a b c : string) :
  ((a ++ b) ++ c)%string = (a ++ b ++ c)%string.
Proof. induction a as [|x a IH]; simpl; [reflexivity | now rewrite IH]. Qed.

Lemma string_forallb_app (p : ascii -> bool) (a b : string) :
  string_forallb p (a ++ b) = string_forallb p a && string_forallb p b.
Proof.
  induction a as [|x a IH]; simpl; [reflexivity|].
  now rewrite IH, andb_assoc.
Qed.

(** Inside a replacement field, the characters of a name free of braces
    are collected up to the closing brace. *)
Lemma format_scan_field (m : dict value) (name rest : string) :
  string_forallb (fun c => negb (is_brace c)) name = true ->
  forall acc out,
    format_scan m (Field acc) (name ++ String RBRACE rest) out =
    match format_field m (acc ++ name) with
    | Ok r => format_scan m Text rest (out ++ r)
    | Raise e => Raise e
    end.
Proof.
  induction name as [|c name IH]; intros Hname acc out.
  - replace (acc ++ "")%string with acc
      by (clear; induction acc; simpl; congruence).
    reflexivity.
  - simpl in Hname. apply andb_true_iff in Hname as [Hc Hname].
    unfold is_brace in Hc. apply negb_true_iff, orb_false_iff in Hc as [Hl Hr].
    cbn [append format_scan]. rewrite Hr, Hl, (IH Hname).
    now rewrite string_app_assoc.
Qed.

Lemma plain_name_field (m : dict value) (name : string) :
  plain_name name = true ->
  format_field m name =
  match get m name with
  | Some v => Ok (str_of_value v)
  | None => Raise KeyError
  end.
Proof.
  unfold plain_name, format_field. intros H.
  apply andb_true_iff in H as [H Hd]. apply andb_true_iff in H as [Hs He].
  apply negb_true_iff in Hd, He. rewrite He, Hd.
  replace (string_forallb (fun c => negb (is_special c)) name) with true;
    [reflexivity|].
  symmetry. clear -Hs. induction name as [|c name IH]; simpl in *; [reflexivity|].
  apply andb_true_iff in Hs as [Hc Hs]. apply andb_true_iff in Hc as [Hc _].
  now rewrite Hc, IH.
Qed.

(** A string that is one placeholder renders the value under its name. *)
Lemma format_placeholder (m : dict value) (name : string) :
  plain_name name = true ->
  format m (placeholder name) =
  match get m name with
  | Some v => Ok (str_of_value v)
  | None => Raise KeyError
  end.
Proof.
  intros Hp. pose proof Hp as Hp'. unfold plain_name in Hp'.
  apply andb_true_iff in Hp' as [Hp' _]. apply andb_true_iff in Hp' as [Hs He].
  destruct name as [|c name]; [discriminate|].
  simpl in Hs. apply andb_true_iff in Hs as [Hc Hs].
  apply andb_true_iff in Hc as [_ Hc].
  unfold is_brace in Hc. apply negb_true_iff, orb_false_iff in Hc as [Hl Hr].
  unfold format, placeholder. cbn [append format_scan].
  rewrite Ascii.eqb_refl, Hl, Hr.
  rewrite format_scan_field.
  - cbn [append]. rewrite (plain_name_field m _ Hp).
    destruct (get m (String c name)); reflexivity.
  - clear -Hs. induction name as [|x name IH]; simpl in *; [reflexivity|].
    apply andb_true_iff in Hs as [Hx Hs]. apply andb_true_iff in Hx as [_ Hx].
    now rewrite Hx, IH.
Qed.

(** A string without braces renders as itself. *)
Lemma format_scan_plain (m : dict value) (s : string) :
  string_forallb (fun c => negb (is_brace c)) s = true ->
  forall out, format_scan m Text s out = Ok (out ++ s)%string.
Proof.
  induction s as [|c s IH]; intros Hs out.
  - cbn. f_equal. clear. induction out; simpl; congruence.
  - simpl in Hs. apply andb_true_iff in Hs as [Hc Hs].
    unfold is_brace in Hc. apply negb_true_iff, orb_false_iff in Hc as [Hl Hr].
    cbn [format_scan]. rewrite Hl, Hr, (IH Hs).
    now rewrite string_app_assoc.
Qed.

Lemma format_plain (m : dict value) (s : string) :
  string_forallb (fun c => negb (is_brace c)) s = true ->
  format m s = Ok s.
Proof. intros H. unfold format. now rewrite format_scan_plain. Qed.

End FormatFacts.

(** ** The parser on recognized and other datagrams *)

Module ParserClaims.

Import Parser ParserSpec PyBytesFacts ParserFacts Examples.

(** C5. A datagram that does not begin with [M-SEARCH] or [NOTIFY] parses
    to [None]. A well-formed datagram that begins with one of them parses
    to a request from the sender, whose method, path and version are the
    three tokens of the request line and whose header multimap gives, for
    every header name, the trimmed values of the lines of that name in
    their order of appearance, repeated names included. *)
Theorem parse_request_multimap (data : bytes) (sender : addr) :
  (recognized_verb data = false -> parse_request (data, sender) = Ok None) /\
  (recognized_verb data = true -> well_formed data = true ->
   exists r,
     parse_request (data, sender) = Ok (Some r) /\
     REMOTE r = sender /\
     split SP (request_line data) = [METHOD r; PATH r; VERSION r] /\
     forall h, headers_get (HEADERS r) h = values_of h (header_fields data)).
Proof.
  split.
  - intros Hv. rewrite parse_request_cases, Hv. reflexivity.
  - apply parse_request_ok.
Qed.

Lemma parse_request_multimap_witness :
  parse_request (B "GET / HTTP/1.1", requester) = Ok None /\
  exists r,
    parse_request (search2, requester) = Ok (Some r) /\
    METHOD r = B "M-SEARCH" /\
    headers_get (HEADERS r) (B "ST") = [B "urn:test:device:2"; B "ssdp:all"].
Proof.
  split.
  - apply (parse_request_multimap (B "GET / HTTP/1.1") requester).
    reflexivity.
  - destruct (parse_request_multimap search2 requester) as [_ H].
    destruct (H eq_refl eq_refl) as (r & Hr & _ & Hline & Hget).
    exists r. split; [exact Hr|]. split.
    + change (split SP (request_line search2))
        with [B "M-SEARCH"; B "*"; B "HTTP/1.1"] in Hline.
      now injection Hline as <- _ _.
    + rewrite Hget. reflexivity.
Defined.

End ParserClaims.

(** ** Facts about [create_fmt] *)

Module TemplateFacts.

Import Parser Descriptor Responder TemplateSpec ResponderSpec.
Import DictFacts FormatFacts EngineFacts.

Section Facts.

Variable World : Type.

Implicit Types (params : dict (param World)) (service fmt : dict value).

Lemma keys_evaluated params (w : World) :
  keys (fst (evaluated params w)) = keys params.
Proof.
  revert w. induction params as [|[k [v|p]] params IH]; intros w; simpl.
  - reflexivity.
  - specialize (IH w). destruct (evaluated params w) as [m w']. simpl in *.
    now rewrite IH.
  - destruct (p w) as [v w1]. specialize (IH w1).
    destruct (evaluated params w1) as [m w']. simpl in *. now rewrite IH.
Qed.

(** The first loop, on the entries [todo] that follow the entries [done]
    of the params. *)
Lemma eval_params_loop params (todo : dict (param World)) :
  forall (done : dict (param World)) (acc : dict value) (st : state World),
    params = (done ++ todo)%list ->
    NoDup (keys params) ->
    keys acc = keys done ->
    fold_each
      (fun fmt key =>
         bind (lift (getitem params key))
           (fun p => match p with
                     | Computed f => bind (call key f) (fun v => ret (set fmt key v))
                     | Literal v => ret (set fmt key v)
                     end))
      (keys todo) acc st
    = (Ok (acc ++ fst (evaluated todo (world st)))%list,
       after_calls (computed_keys todo) (snd (evaluated todo (world st))) st).
Proof.
  set (body := fun (fmt : dict value) (key : string) => _).
  induction todo as [|[k p] todo IH]; intros done acc st Hp Hnd Hacc.
  - simpl. unfold ret, after_calls. rewrite !app_nil_r. now destruct st.
  - assert (Hk : ~ In k (keys done)).
    { rewrite Hp, keys_app in Hnd. simpl in Hnd.
      apply NoDup_remove_2 in Hnd. intros H. apply Hnd, in_or_app. now left. }
    assert (Hget : getitem params k = Ok p).
    { unfold getitem. rewrite Hp, get_app_notin, get_cons_same by exact Hk.
      reflexivity. }
    assert (Hset : forall v, set acc k v = (acc ++ [(k, v)])%list).
    { intros v. apply set_notin. now rewrite Hacc. }
    change (fold_each body (keys ((k, p) :: todo)) acc st)
      with (bind (body acc k) (fun s' => fold_each body (keys todo) s') st).
    specialize (IH (done ++ [(k, p)])%list).
    destruct p as [v|f].
    + assert (Hstep : body acc k st = (Ok (acc ++ [(k, v)])%list, st)).
      { unfold body, bind, lift. rewrite Hget. unfold ret. now rewrite Hset. }
      rewrite (bind_ok _ _ _ Hstep).
      rewrite (IH (acc ++ [(k, v)])%list st).
      * cbn [evaluated computed_keys flat_map snd fst app].
        destruct (evaluated todo (world st)) as [m w']. cbn [fst snd].
        now rewrite <- app_assoc.
      * now rewrite <- app_assoc.
      * exact Hnd.
      * rewrite !keys_app, Hacc. reflexivity.
    + destruct (f (world st)) as [v w1] eqn:Ef.
      assert (Hstep : body acc k st
                      = (Ok (acc ++ [(k, v)])%list,
                         with_world w1 (log (EvCall k) st))).
      { unfold body, bind, lift. rewrite Hget. unfold call. rewrite Ef.
        unfold ret. now rewrite Hset. }
      rewrite (bind_ok _ _ _ Hstep).
      rewrite (IH (acc ++ [(k, v)])%list).
      * cbn [evaluated computed_keys flat_map snd fst app]. rewrite Ef.
        cbn [world with_world log].
        destruct (evaluated todo w1) as [m w']. cbn [fst snd].
        unfold after_calls. cbn [world running uid trace with_world log map].
        now rewrite <- !app_assoc.
      * now rewrite <- app_assoc.
      * exact Hnd.
      * rewrite !keys_app, Hacc. reflexivity.
Qed.

(** The first loop calls every producer once, in the order of the entries,
    and cannot raise. *)
Lemma eval_params_closed params (st : state World) :
  NoDup (keys params) ->
  eval_params params st
  = (Ok (fst (evaluated params (world st))),
     after_calls (computed_keys params) (snd (evaluated params (world st))) st).
Proof.
  intros Hnd. unfold eval_params.
  now rewrite (@eval_params_loop params params [] [] st).
Qed.

(** The second loop: the service wins under every key it holds. *)
Lemma overlay_loop_get service (ks : list string) :
  (forall x, In x ks -> In x (keys service)) ->
  forall fmt k,
    get (fold_left (fun fmt key => match get service key with
                                   | Some v => set fmt key v
                                   | None => fmt
                                   end) ks fmt) k
    = if in_dec string_dec k ks then get service k else get fmt k.
Proof.
  induction ks as [|a ks IH]; intros Hks fmt k; [reflexivity|].
  cbn [fold_left]. rewrite IH by (intros x Hx; apply Hks; now right).
  destruct (get_in service a (Hks a (or_introl eq_refl))) as [va Ha].
  rewrite Ha.
  destruct (in_dec string_dec k ks) as [H1|H1];
    destruct (in_dec string_dec k (a :: ks)) as [H2|H2]; try reflexivity.
  - contradiction H2. now right.
  - destruct H2 as [->|H2]; [|contradiction].
    now rewrite get_set_same.
  - rewrite get_set_other; [reflexivity|]. intros ->. apply H2. now left.
Qed.

Lemma overlay_get fmt service (k : string) :
  get (overlay fmt service) k
  = match get service k with
    | Some v => Some v
    | None => get fmt k
    end.
Proof.
  unfold overlay. rewrite overlay_loop_get by tauto.
  destruct (in_dec string_dec k (keys service)) as [H|H].
  - destruct (get_in service k H) as [v Hv]. now rewrite Hv.
  - now rewrite (get_notin _ _ H).
Qed.

Lemma overlay_keys_nodup fmt service :
  NoDup (keys fmt) -> NoDup (keys (overlay fmt service)).
Proof.
  unfold overlay. generalize (keys service) as ks. intros ks. revert fmt.
  induction ks as [|a ks IH]; intros fmt H; [exact H|].
  cbn [fold_left]. apply IH. destruct (get service a); [|exact H].
  now apply nodup_keys_set.
Qed.

(** The entries of [fmt] come first, in their order. *)
Lemma overlay_keys_prefix fmt service :
  exists new, keys (overlay fmt service) = (keys fmt ++ new)%list.
Proof.
  unfold overlay. generalize (keys service) as ks. intros ks. revert fmt.
  induction ks as [|a ks IH]; intros fmt.
  - exists []. now rewrite app_nil_r.
  - cbn [fold_left]. destruct (get service a) as [v|]; [|apply IH].
    destruct (IH (set fmt a v)) as [new Hnew]. rewrite Hnew.
    destruct (in_dec string_dec a (keys fmt)) as [Hin|Hin].
    + rewrite keys_set_in by exact Hin. now exists new.
    + rewrite set_notin, keys_app by exact Hin. simpl.
      exists (a :: new). now rewrite <- app_assoc.
Qed.

(** The third loop is one pass over the entries of the mapping. *)
Lemma substitute_loop (todo : dict value) :
  forall done : dict value,
    NoDup (keys (done ++ todo)) ->
    substitute (keys todo) (done ++ todo) = resolve_entries done todo [].
Proof.
  induction todo as [|[k v] todo IH]; intros done Hnd.
  - simpl. now rewrite app_nil_r.
  - assert (Hk : ~ In k (keys done)).
    { rewrite keys_app in Hnd. simpl in Hnd. apply NoDup_remove_2 in Hnd.
      intros H. apply Hnd, in_or_app. now left. }
    cbn [keys map fst substitute resolve_entries].
    rewrite get_app_notin, get_cons_same by exact Hk.
    assert (Hnd' : forall v', NoDup (keys ((done ++ [(k, v')]) ++ todo))).
    { intros v'. rewrite <- app_assoc. simpl.
      rewrite keys_app in *. exact Hnd. }
    destruct v as [s|n|b].
    + rewrite app_nil_r.
      destruct (format (done ++ (k, VStr s) :: todo) s) as [s'|e]; [|reflexivity].
      rewrite set_app_notin, set_cons_same by exact Hk.
      rewrite <- (IH _ (Hnd' (VStr s'))). now rewrite <- app_assoc.
    + rewrite <- (IH _ (Hnd' (VInt n))). now rewrite <- app_assoc.
    + rewrite <- (IH _ (Hnd' (VBytes b))). now rewrite <- app_assoc.
Qed.

Lemma substitute_closed (m : dict value) :
  NoDup (keys m) -> substitute (keys m) m = single_pass m.
Proof. intros H. apply (substitute_loop m []). exact H. Qed.

(** [create_fmt] in closed form: the producers are called, the service is
    laid over, and one pass resolves the entries. *)
Lemma create_fmt_closed params service (st : state World) :
  NoDup (keys params) ->
  create_fmt params service st
  = (single_pass (overlay (fst (evaluated params (world st))) service),
     after_calls (computed_keys params) (snd (evaluated params (world st))) st).
Proof.
  intros Hnd. unfold create_fmt, bind.
  rewrite eval_params_closed by exact Hnd. unfold lift.
  rewrite substitute_closed; [reflexivity|].
  apply overlay_keys_nodup. now rewrite keys_evaluated.
Qed.

End Facts.

End TemplateFacts.

(** ** The merged mapping and the single pass *)

Module MergeFacts.

Import Parser Descriptor Responder TemplateSpec ResponderSpec.
Import DictFacts FormatFacts EngineFacts TemplateFacts.

Implicit Types (service fmt m done todo rest : dict value) (k : string).

Lemma mem_in {V} k (m : dict V) : mem k m = true <-> In k (keys m).
Proof.
  unfold mem. rewrite existsb_exists. split.
  - intros (x & Hx & E). apply String.eqb_eq in E. now subst.
  - intros H. exists k. split; [exact H | apply String.eqb_refl].
Qed.

Lemma fold_left_ext_in {A B} (f g : A -> B -> A) (l : list B) :
  (forall a x, In x l -> f a x = g a x) ->
  forall a, fold_left f l a = fold_left g l a.
Proof.
  induction l as [|x l IH]; intros H a; [reflexivity|]. simpl.
  rewrite (H a x) by now left. apply IH. intros a' y Hy. apply H. now right.
Qed.

Lemma overlay_cons fmt service k (v : value) :
  ~ In k (keys service) ->
  overlay fmt ((k, v) :: service) = overlay (set fmt k v) service.
Proof.
  intros Hk. unfold overlay. cbn [keys map fst fold_left].
  rewrite get_cons_same. apply fold_left_ext_in.
  intros a x Hx. rewrite get_cons_other; [reflexivity|].
  intros ->. contradiction.
Qed.

Lemma map_upd_other fmt service k (v : value) :
  ~ In k (keys fmt) ->
  map (upd ((k, v) :: service)) fmt = map (upd service) fmt.
Proof.
  intros Hk. apply map_ext_in. intros [k0 v0] Hin. unfold upd. cbn [fst snd].
  rewrite get_cons_other; [reflexivity|].
  intros ->. apply Hk. apply (in_map fst) in Hin. exact Hin.
Qed.

Lemma map_upd_set fmt service k (v : value) :
  NoDup (keys fmt) -> In k (keys fmt) -> ~ In k (keys service) ->
  map (upd service) (set fmt k v) = map (upd ((k, v) :: service)) fmt.
Proof.
  intros Hnd Hin Hk. induction fmt as [|[k0 v0] fmt IH]; [contradiction|].
  cbn [keys map fst] in Hnd, Hin. apply NoDup_cons_iff in Hnd as [Hk0 Hnd].
  cbn [set]. destruct (String.eqb_spec k0 k) as [E|E].
  - subst k0. cbn [map]. rewrite (@map_upd_other fmt service k v Hk0).
    unfold upd at 1 3. cbn [fst snd].
    now rewrite (get_notin _ _ Hk), get_cons_same.
  - destruct Hin as [Hin|Hin]; [contradiction|].
    cbn [map]. rewrite (IH Hnd Hin).
    unfold upd at 1 3. cbn [fst snd].
    rewrite get_cons_other by congruence. reflexivity.
Qed.

Lemma merged_cons fmt service k (v : value) :
  NoDup (keys fmt) -> ~ In k (keys service) ->
  merged fmt ((k, v) :: service) = merged (set fmt k v) service.
Proof.
  intros Hnd Hk. unfold merged.
  destruct (in_dec string_dec k (keys fmt)) as [Hin|Hin].
  - rewrite map_upd_set by assumption. f_equal.
    cbn [filter fst]. apply mem_in in Hin as Hm. rewrite Hm. cbn [negb].
    apply filter_ext. intros e. unfold mem. now rewrite keys_set_in.
  - rewrite map_upd_other by exact Hin.
    rewrite set_notin by exact Hin. rewrite map_app. cbn [map].
    unfold upd at 3. cbn [fst snd]. rewrite (get_notin _ _ Hk).
    cbn [filter fst].
    assert (Hm : mem k fmt = false).
    { destruct (mem k fmt) eqn:E; [|reflexivity]. apply mem_in in E.
      contradiction. }
    rewrite Hm. cbn [negb]. rewrite <- app_assoc. cbn [app]. do 2 f_equal.
    apply filter_ext_in. intros [k' v'] Hin'. cbn [fst].
    unfold mem. rewrite keys_app, existsb_app. cbn [keys map fst existsb].
    destruct (String.eqb_spec k' k) as [->|_].
    + contradiction Hk. apply (in_map fst) in Hin'. exact Hin'.
    + now rewrite !orb_false_r.
Qed.

(** The second loop builds the merged mapping: the params in their order,
    overridden by the service, then what the service adds. *)
Lemma overlay_merged service :
  NoDup (keys service) ->
  forall fmt, NoDup (keys fmt) -> overlay fmt service = merged fmt service.
Proof.
  induction service as [|[k v] service IH]; intros Hs fmt Hf.
  - unfold overlay, merged. cbn. rewrite app_nil_r.
    symmetry. rewrite <- (map_id fmt) at 2. apply map_ext. now intros [].
  - cbn [keys map fst] in Hs. apply NoDup_cons_iff in Hs as [Hk Hs].
    rewrite overlay_cons, merged_cons by assumption.
    apply IH; [exact Hs | now apply nodup_keys_set].
Qed.

(** *** The pass *)

Lemma resolve_entries_app (a b : dict value) :
  forall done rest,
    resolve_entries done (a ++ b) rest =
    match resolve_entries done a (b ++ rest) with
    | Ok done' => resolve_entries done' b rest
    | Raise e => Raise e
    end.
Proof.
  induction a as [|[k v] a IH]; intros done rest; [reflexivity|].
  cbn [app resolve_entries]. rewrite <- !app_assoc. cbn [app].
  destruct v as [s|n|x]; try apply IH.
  destruct (format _ s); [apply IH | reflexivity].
Qed.

(** The pass keeps the entries already processed and the keys. *)
Lemma resolve_entries_shape todo :
  forall done rest r,
    resolve_entries done todo rest = Ok r ->
    exists todo', r = (done ++ todo')%list /\ keys todo' = keys todo.
Proof.
  induction todo as [|[k v] todo IH]; intros done rest r H.
  - injection H as <-. exists []. now rewrite app_nil_r.
  - cbn [resolve_entries] in H.
    assert (Hgo : forall v', resolve_entries (done ++ [(k, v')]) todo rest = Ok r ->
                  exists todo', r = (done ++ todo')%list
                                /\ keys todo' = keys ((k, v) :: todo)).
    { intros v' H'. destruct (IH _ _ _ H') as (t & -> & Ht).
      exists ((k, v') :: t). rewrite <- app_assoc. split; [reflexivity|].
      unfold keys in *. cbn [map fst]. now rewrite Ht. }
    destruct v as [s|n|x]; try (now apply (Hgo _ H)).
    destruct (format _ s) as [s'|e]; [now apply (Hgo _ H) | discriminate].
Qed.

(** An entry that is not a [str] goes through the pass unchanged; a [str]
    entry is replaced by its rendering with a mapping where it still has
    its own value. *)
Lemma resolve_entries_get todo :
  forall done rest r k v,
    NoDup (keys (done ++ todo)) ->
    resolve_entries done todo rest = Ok r ->
    get todo k = Some v ->
    match v with
    | VStr s => exists m s', get m k = Some (VStr s) /\ format m s = Ok s'
                             /\ get r k = Some (VStr s')
    | _ => get r k = Some v
    end.
Proof.
  induction todo as [|[k0 v0] todo IH]; intros done rest r k v Hnd Hr Hget;
    [discriminate|].
  assert (Hk0 : ~ In k0 (keys done)).
  { rewrite keys_app in Hnd. cbn [keys map fst] in Hnd.
    apply NoDup_remove_2 in Hnd. intros H. apply Hnd, in_or_app. now left. }
  assert (Hnd' : forall v', NoDup (keys ((done ++ [(k0, v')]) ++ todo))).
  { intros v'. rewrite <- app_assoc. rewrite keys_app in *. exact Hnd. }
  assert (Hkeep : forall v', resolve_entries (done ++ [(k0, v')]) todo rest = Ok r ->
                             get r k0 = Some v').
  { intros v' H'. destruct (resolve_entries_shape _ _ _ H') as (t & -> & _).
    rewrite <- app_assoc. rewrite get_app_notin by exact Hk0.
    apply get_cons_same. }
  cbn [resolve_entries] in Hr. cbn [get] in Hget.
  destruct (String.eqb_spec k0 k) as [E|E].
  - subst k0. injection Hget as <-.
    destruct v0 as [s|n|x]; try (now apply Hkeep).
    destruct (format (done ++ ((k, VStr s) :: todo) ++ rest) s) as [s'|e] eqn:Ef;
      [|discriminate].
    exists (done ++ ((k, VStr s) :: todo) ++ rest)%list, s'.
    split; [|split; [exact Ef | now apply Hkeep]].
    rewrite get_app_notin by exact Hk0. apply get_cons_same.
  - destruct v0 as [s|n|x];
      try (now apply (IH _ _ _ _ _ (Hnd' _) Hr Hget)).
    destruct (format _ s) as [s'|e]; [|discriminate].
    now apply (IH _ _ _ _ _ (Hnd' _) Hr Hget).
Qed.

End MergeFacts.

(** ** References between entries *)

Module ReferenceFacts.

Import TemplateSpec DictFacts FormatFacts MergeFacts.

Implicit Types (m pre mid post : dict value) (ki kj : string).

Lemma nodup_middle {A} (a b : list A) (x : A) :
  NoDup (a ++ x :: b) -> ~ In x a /\ ~ In x b.
Proof.
  intros H. apply NoDup_remove_2 in H. split; intros Hin; apply H, in_or_app;
    [now left | now right].
Qed.

(** An entry that is a placeholder for an entry that comes later takes the
    value that entry has before the pass reaches it. *)
Lemma single_pass_forward m pre mid post ki kj (u : string) (r : dict value) :
  NoDup (keys m) ->
  m = (pre ++ (ki, VStr (placeholder kj)) :: mid ++ (kj, VStr u) :: post)%list ->
  plain_name kj = true ->
  single_pass m = Ok r ->
  get r ki = Some (VStr u).
Proof.
  intros Hnd -> Hp Hr. unfold single_pass in Hr.
  unfold keys in Hnd. repeat (rewrite map_app in Hnd; cbn [map fst] in Hnd).
  destruct (nodup_middle _ _ _ Hnd) as [Hki _].
  assert (Hkj : ~ In kj (keys pre) /\ ki <> kj /\ ~ In kj (keys mid)).
  { change (map fst pre ++ ki :: map fst mid ++ kj :: map fst post)%list
      with (map fst pre ++ (ki :: map fst mid) ++ kj :: map fst post)%list in Hnd.
    rewrite app_assoc in Hnd. destruct (nodup_middle _ _ _ Hnd) as [H _].
    repeat split; intros H'; apply H, in_or_app.
    - now left.
    - right. left. exact H'.
    - right. now right. }
  destruct Hkj as (Hkj1 & Hne & Hkj2).
  rewrite resolve_entries_app in Hr.
  destruct (resolve_entries [] pre _) as [pre'|e] eqn:E1; [|discriminate].
  destruct (resolve_entries_shape _ _ _ E1) as (t & -> & Ht). cbn [app] in *.
  cbn [resolve_entries] in Hr. rewrite (format_placeholder _ kj Hp) in Hr.
  rewrite get_app_notin in Hr by now rewrite Ht.
  cbn [app] in Hr. rewrite get_cons_other in Hr by exact Hne.
  rewrite <- app_assoc in Hr. rewrite get_app_notin in Hr by exact Hkj2.
  cbn [app] in Hr. rewrite get_cons_same in Hr. cbn [str_of_value] in Hr.
  destruct (resolve_entries_shape _ _ _ Hr) as (t' & -> & _).
  rewrite <- app_assoc. rewrite get_app_notin by now rewrite Ht.
  apply get_cons_same.
Qed.

(** An entry that is a placeholder for an entry that comes earlier takes
    the value that entry has after the pass. *)
Lemma single_pass_backward m pre mid post ki kj (vj : value) (r : dict value) :
  NoDup (keys m) ->
  m = (pre ++ (kj, vj) :: mid ++ (ki, VStr (placeholder kj)) :: post)%list ->
  plain_name kj = true ->
  single_pass m = Ok r ->
  exists v, get r kj = Some v /\ get r ki = Some (VStr (str_of_value v)).
Proof.
  intros Hnd -> Hp Hr. unfold single_pass in Hr.
  change (pre ++ (kj, vj) :: mid ++ (ki, VStr (placeholder kj)) :: post)%list
    with (pre ++ ((kj, vj) :: mid) ++ (ki, VStr (placeholder kj)) :: post)%list
    in Hnd, Hr.
  rewrite app_assoc in Hnd, Hr.
  set (a := (pre ++ (kj, vj) :: mid)%list) in *.
  rewrite keys_app in Hnd.
  destruct (nodup_middle (keys a) _ _ Hnd) as [Hki _].
  assert (Hkj : In kj (keys a)).
  { unfold a. rewrite keys_app. apply in_or_app. right. now left. }
  rewrite resolve_entries_app in Hr.
  destruct (resolve_entries [] a _) as [a'|e] eqn:E1; [|discriminate].
  destruct (resolve_entries_shape _ _ _ E1) as (t & -> & Ht). cbn [app] in *.
  rewrite <- Ht in Hki, Hkj.
  cbn [resolve_entries] in Hr. rewrite (format_placeholder _ kj Hp) in Hr.
  rewrite get_app_in in Hr by exact Hkj.
  destruct (get_in _ _ Hkj) as [v Hv]. rewrite Hv in Hr.
  destruct (resolve_entries_shape _ _ _ Hr) as (t' & -> & _).
  exists v. rewrite <- app_assoc. split.
  - rewrite get_app_in by exact Hkj. exact Hv.
  - rewrite get_app_notin by exact Hki. apply get_cons_same.
Qed.

End ReferenceFacts.

(** ** Template resolution *)

Module TemplateClaims.

Import Parser Descriptor Responder TemplateSpec ResponderSpec Examples.
Import DictFacts FormatFacts EngineFacts TemplateFacts MergeFacts ReferenceFacts.

Ltac nodup_keys :=
  repeat (apply NoDup_cons; [simpl; intuition discriminate|]); apply NoDup_nil.

Section Claims.

Variable World : Type.

Implicit Types (params : dict (param World)) (service fmt : dict value).

Lemma merged_nodup params service (w : World) :
  NoDup (keys params) -> NoDup (keys service) ->
  merged (fst (evaluated params w)) service
  = overlay (fst (evaluated params w)) service
  /\ NoDup (keys (merged (fst (evaluated params w)) service)).
Proof.
  intros Hp Hs.
  assert (He : NoDup (keys (fst (evaluated params w))))
    by now rewrite keys_evaluated.
  rewrite <- (@overlay_merged service Hs _ He). split; [reflexivity|].
  now apply overlay_keys_nodup.
Qed.

(** C2. [create_fmt] returns what one pass over the merged mapping
    returns: the evaluated params in their order, overridden by the
    service, then the entries the service adds, each [str] entry being
    formatted once, in that order, with the mapping as it is then. So an
    entry that is the placeholder of a later entry takes that entry's
    value as it stands before the pass reaches it, placeholders
    included; and an entry that is the placeholder of an earlier entry
    takes the value the pass gave to that entry. *)
Theorem create_fmt_single_pass params service (st : state World) :
  NoDup (keys params) -> NoDup (keys service) ->
  forall m, m = merged (fst (evaluated params (world st))) service ->
  fst (create_fmt params service st) = single_pass m /\
  (forall pre mid post ki kj u r,
     m = (pre ++ (ki, VStr (placeholder kj))
              :: mid ++ (kj, VStr u) :: post)%list ->
     plain_name kj = true ->
     fst (create_fmt params service st) = Ok r ->
     get r ki = Some (VStr u)) /\
  (forall pre mid post ki kj vj r,
     m = (pre ++ (kj, vj)
              :: mid ++ (ki, VStr (placeholder kj)) :: post)%list ->
     plain_name kj = true ->
     fst (create_fmt params service st) = Ok r ->
     exists v, get r kj = Some v /\ get r ki = Some (VStr (str_of_value v))).
Proof.
  intros Hp Hs m Hm.
  destruct (@merged_nodup params service (world st) Hp Hs) as [Ho Hnd]. rewrite <- Hm in Ho, Hnd.
  assert (Hc : fst (create_fmt params service st) = single_pass m).
  { rewrite create_fmt_closed by exact Hp. cbn [fst]. now rewrite Ho. }
  split; [exact Hc|]. rewrite Hc. split.
  - intros pre mid post ki kj u r Hshape Hplain Hr.
    eapply single_pass_forward; eassumption.
  - intros pre mid post ki kj vj r Hshape Hplain Hr.
    eapply single_pass_backward; eassumption.
Qed.

(** C8. When a key of the params is also a key of the service, the merged
    mapping holds the value of the service under it, and so does the
    mapping returned: that value itself when it is not a [str] or is a
    [str] without braces, and its rendering by the pass otherwise. For a
    service that does not hold the key, the merged mapping holds the
    value of the param. *)
Theorem service_overrides_param params service (st st' : state World)
  fmt (k : string) (v : value) :
  NoDup (keys params) ->
  In k (keys params) ->
  get service k = Some v ->
  create_fmt params service st = (Ok fmt, st') ->
  get (overlay (fst (evaluated params (world st))) service) k = Some v /\
  match v with
  | VStr s => exists m s', get m k = Some (VStr s) /\ format m s = Ok s'
                           /\ get fmt k = Some (VStr s')
                           /\ (string_forallb (fun c => negb (is_brace c)) s
                               = true -> s' = s)
  | _ => get fmt k = Some v
  end /\
  forall service2 (st2 : state World),
    get service2 k = None ->
    get (overlay (fst (evaluated params (world st2))) service2) k
    = get (fst (evaluated params (world st2))) k.
Proof.
  intros Hp Hin Hk Hc.
  assert (Ho : get (overlay (fst (evaluated params (world st))) service) k
               = Some v) by now rewrite overlay_get, Hk.
  split; [exact Ho|]. split.
  - rewrite create_fmt_closed in Hc by exact Hp. injection Hc as Hc _.
    unfold single_pass in Hc.
    assert (Hg : match v with
                 | VStr s => exists m s', get m k = Some (VStr s)
                                          /\ format m s = Ok s'
                                          /\ get fmt k = Some (VStr s')
                 | _ => get fmt k = Some v
                 end).
    { apply (@resolve_entries_get
               (overlay (fst (evaluated params (world st))) service)
               [] [] fmt k v); [|exact Hc|exact Ho].
      cbn [app]. apply overlay_keys_nodup. now rewrite keys_evaluated. }
    destruct v as [s|n|b]; try exact Hg.
    destruct Hg as (m & s' & Hm & Hf & Hfmt). exists m, s'.
    repeat split; try assumption.
    intros Hplain. rewrite (format_plain m s Hplain) in Hf. congruence.
  - intros service2 st2 H2. now rewrite overlay_get, H2.
Qed.

(** The counter never goes down while the params are evaluated. *)
Lemma evaluated_keeps (c : World -> Z) params :
  Forall (keeps c) params ->
  forall w, (c w <= c (snd (evaluated params w)))%Z.
Proof.
  induction 1 as [|[k [v|q]] params Hk _ IH]; intros w; cbn [evaluated].
  - cbn. lia.
  - specialize (IH w). destruct (evaluated params w). exact IH.
  - unfold keeps in Hk. cbn [snd] in Hk. specialize (Hk w).
    destruct (q w) as [v w1]. specialize (IH w1).
    destruct (evaluated params w1). cbn [snd] in *. lia.
Qed.

(** The value under the key of a counter producer is the counter as it
    is when the producer is called. *)
Lemma evaluated_counter (c : World -> Z) params (k : string)
  (p : producer World) :
  Forall (keeps c) params ->
  get params k = Some (Computed p) ->
  (forall w, fst (p w) = VInt (c w) /\ (c w < c (snd (p w)))%Z) ->
  forall w, exists n,
    get (fst (evaluated params w)) k = Some (VInt n) /\
    (c w <= n < c (snd (evaluated params w)))%Z.
Proof.
  intros Hall Hget Hp. induction Hall as [|[k0 e] params Hk Hall IH];
    intros w; [discriminate|].
  cbn [get] in Hget. destruct (String.eqb_spec k0 k) as [E|E].
  - injection Hget as ->. cbn [evaluated].
    destruct (Hp w) as [Hv Hlt]. destruct (p w) as [v w1]. cbn [fst snd] in *.
    pose proof (@evaluated_keeps c params Hall w1) as Hle.
    destruct (evaluated params w1) as [m w']. cbn [fst snd get] in *.
    exists (c w). rewrite E, String.eqb_refl, Hv. split; [reflexivity | lia].
  - destruct e as [v|q]; cbn [evaluated].
    + destruct (IH Hget w) as (n & Hn & Hb).
      destruct (evaluated params w) as [m w']. cbn [fst snd get] in *.
      exists n. destruct (String.eqb_spec k0 k); [contradiction|]. now split.
    + unfold keeps in Hk. cbn [snd] in Hk. specialize (Hk w).
      destruct (q w) as [v w1]. destruct (IH Hget w1) as (n & Hn & Hb).
      destruct (evaluated params w1) as [m w']. cbn [fst snd get] in *.
      exists n. destruct (String.eqb_spec k0 k); [contradiction|].
      split; [exact Hn | lia].
Qed.

Lemma computed_keys_nodup params :
  NoDup (keys params) -> NoDup (computed_keys params).
Proof.
  induction params as [|[k [v|p]] params IH]; cbn; intros H.
  - constructor.
  - apply IH. now apply NoDup_cons_iff in H.
  - apply NoDup_cons_iff in H as [Hk H]. constructor; [|now apply IH].
    intros Hin. apply Hk. clear -Hin.
    induction params as [|[k0 [v0|p0]] params IH]; cbn in *; [tauto| |].
    + right. now apply IH.
    + destruct Hin as [->|Hin]; [now left | right; now apply IH].
Qed.

(** C9. One call of [create_fmt] calls every producer of the params once,
    in the order of the entries, each in the world the call before it
    left, whatever was computed before: the world after the call is the
    one the last producer left, and the trace grows by one call per
    producer. So of two calls in a row the second calls the producers
    again, and the field of a producer that returns a counter it
    increments is strictly greater in the second mapping. *)
Theorem producers_called_on_every_render params :
  NoDup (keys params) ->
  (forall service (st : state World),
     snd (create_fmt params service st)
     = after_calls (computed_keys params)
         (snd (evaluated params (world st))) st) /\
  NoDup (computed_keys params) /\
  (forall (c : World -> Z) (k : string) (p : producer World) service
          (st st1 st2 : state World) fmt1 fmt2,
     get params k = Some (Computed p) ->
     get service k = None ->
     (forall w, fst (p w) = VInt (c w) /\ (c w < c (snd (p w)))%Z) ->
     Forall (keeps c) params ->
     create_fmt params service st = (Ok fmt1, st1) ->
     create_fmt params service st1 = (Ok fmt2, st2) ->
     exists n1 n2, get fmt1 k = Some (VInt n1) /\
                   get fmt2 k = Some (VInt n2) /\ (n1 < n2)%Z).
Proof.
  intros Hp. split; [|split].
  - intros service st. now rewrite create_fmt_closed.
  - now apply computed_keys_nodup.
  - intros c k p service st st1 st2 fmt1 fmt2 Hk Hs Hinc Hall H1 H2.
    rewrite create_fmt_closed in H1, H2 by exact Hp.
    injection H1 as H1 Hst1. injection H2 as H2 _.
    destruct (@evaluated_counter c params k p Hall Hk Hinc (world st)) as (n1 & G1 & B1).
    destruct (@evaluated_counter c params k p Hall Hk Hinc (world st1)) as (n2 & G2 & B2).
    assert (Hfinal : forall w fmt n,
              single_pass (overlay (fst (evaluated params w)) service) = Ok fmt ->
              get (fst (evaluated params w)) k = Some (VInt n) ->
              get fmt k = Some (VInt n)).
    { intros w fmt n Hf Hg. unfold single_pass in Hf.
      apply (@resolve_entries_get
               (overlay (fst (evaluated params w)) service) [] [] fmt k (VInt n));
        [|exact Hf|now rewrite overlay_get, Hs].
      cbn [app]. apply overlay_keys_nodup. now rewrite keys_evaluated. }
    exists n1, n2. repeat split.
    + exact (Hfinal _ _ _ H1 G1).
    + exact (Hfinal _ _ _ H2 G2).
    + rewrite <- Hst1 in B2. cbn [world after_calls] in B2. lia.
Qed.

End Claims.

Lemma create_fmt_single_pass_witness :
  exists r1 r2,
    fst (create_fmt params0 service1 (st0 [])) = Ok r1 /\
    get r1 "usn"%string = Some (VStr "uuid:{bootid}") /\
    fst (create_fmt params0 service2 (st0 [])) = Ok r2 /\
    get r2 "usn"%string = Some (VStr "uuid:2").
Proof.
  assert (Hp : NoDup (keys params0)) by (unfold params0; nodup_keys).
  assert (H1 : NoDup (keys service1)) by (unfold service1; nodup_keys).
  assert (H2 : NoDup (keys service2)) by (unfold service2; nodup_keys).
  destruct (@create_fmt_single_pass W params0 service1 (st0 []) Hp H1 _ eq_refl) as (_ & Hf & _).
  destruct (@create_fmt_single_pass W params0 service2 (st0 []) Hp H2 _ eq_refl) as (_ & _ & Hb).
  eexists. eexists. split; [reflexivity|]. split; [|split; [reflexivity|]].
  - apply (Hf [("bootid", VInt 0); ("ip", VStr "10.0.0.1");
               ("location", VStr "http://{ip}/{name}.xml");
               ("name", VStr "one"); ("st", VStr "urn:test:device:1")]%string
              [] [] "usn"%string "uuid"%string "uuid:{bootid}"%string);
      reflexivity.
  - destruct (Hb [("bootid", VInt 0); ("ip", VStr "10.0.0.1");
                  ("location", VStr "http://{ip}/{name}.xml");
                  ("name", VStr "default");
                  ("st", VStr "urn:test:device:2")]%string
                 [] [] "usn"%string "uuid"%string (VStr "uuid:2") _
                 eq_refl eq_refl eq_refl) as (v & Hv & Hu).
    vm_compute in Hv. injection Hv as <-. exact Hu.
Defined.

Lemma service_overrides_param_witness :
  get (overlay (fst (evaluated params0 (world (st0 [])))) service1)
    "name"%string = Some (VStr "one") /\
  get (overlay (fst (evaluated params0 (world (st0 [])))) service2)
    "name"%string = Some (VStr "default").
Proof.
  assert (Hp : NoDup (keys params0)) by (unfold params0; nodup_keys).
  assert (Hin : In "name"%string (keys params0)) by (simpl; tauto).
  destruct (create_fmt params0 service1 (st0 [])) as [[fmt|e] st'] eqn:Ec;
    [|vm_compute in Ec; discriminate].
  destruct (@service_overrides_param W params0 service1 (st0 []) st' fmt
              "name"%string (VStr "one") Hp Hin eq_refl Ec) as (Ho & _ & Hother).
  split; [exact Ho|].
  rewrite (Hother service2 (st0 []) eq_refl). reflexivity.
Defined.

Lemma producers_called_on_every_render_witness :
  exists fmt1 st1 fmt2 st2,
    create_fmt params0 service1 (st0 []) = (Ok fmt1, st1) /\
    create_fmt params0 service1 st1 = (Ok fmt2, st2) /\
    trace st2 = [EvCall "bootid"; EvCall "bootid"] /\
    exists n1 n2, get fmt1 "bootid"%string = Some (VInt n1) /\
                  get fmt2 "bootid"%string = Some (VInt n2) /\ (n1 < n2)%Z.
Proof.
  assert (Hp : NoDup (keys params0)) by (unfold params0; nodup_keys).
  destruct (@producers_called_on_every_render W params0 Hp) as (Hcalls & _ & Hfresh).
  do 4 eexists. split; [reflexivity|]. split; [reflexivity|]. split.
  - reflexivity.
  - eapply (Hfresh fst "bootid"%string bootid service1 (st0 [])).
    + reflexivity.
    + reflexivity.
    + intros w. split; [reflexivity|]. cbn. lia.
    + unfold params0. repeat constructor. intros w. cbn. lia.
    + reflexivity.
    + reflexivity.
Defined.

End TemplateClaims.

(** ** Facts about the responder *)

Module ResponderFacts.

Import Parser Descriptor Responder ResponderSpec.
Import PyBytesFacts EngineFacts.

Section Facts.

Variable World : Type.
Variable sock_sendto : World -> bytes -> addr -> res unit * World.
Variable self : responder World.

Let state : Type := Responder.state World.

Lemma call_follows (key : string) (p : producer World) (st st' : state)
  (r : res value) :
  call key p st = (r, st') -> follows st [EvCall key] st'.
Proof.
  unfold call. destruct (p (world st)) as [v w]. intros [= <- <-].
  now unfold follows.
Qed.

Lemma sendto_follows (data : bytes) (dest : addr) (st st' : state)
  (r : res unit) :
  sendto sock_sendto data dest st = (r, st') ->
  follows st [EvSendTo data dest] st'.
Proof.
  unfold sendto. destruct (sock_sendto (world st) data dest) as [r0 w].
  intros [= <- <-]. now unfold follows.
Qed.

(** [create_fmt] does nothing but call producers. *)
Lemma create_fmt_calls (params : dict (param World)) (service : dict value)
  (st st' : state) (r : res (dict value)) :
  create_fmt params service st = (r, st') ->
  exists calls, follows st calls st' /\ forallb is_call calls = true.
Proof.
  unfold create_fmt, bind.
  destruct (eval_params params st) as [r0 st0] eqn:E0.
  assert (H0 : exists calls, follows st calls st0
                             /\ forallb is_call calls = true).
  { unfold eval_params in E0.
    eapply (@fold_each_follows World string (dict value) _
              (fun e => is_call e = true) (fun _ _ => True)) in E0;
      [destruct E0 as (evs & F & Q & _)|].
    2:{ intros s x st1 r1 st1'. unfold bind, lift.
      destruct (getitem params x) as [[v|p]|e].
      + unfold ret. intros [= <- <-]. exists []. split; [apply follows_refl|].
        split; [constructor | trivial].
      + unfold bind. destruct (call x p st1) as [[v|e] st2] eqn:Ec.
        * unfold ret. intros [= <- <-]. exists [EvCall x].
          split; [exact (call_follows _ _ _ Ec)|].
          split; [now repeat constructor | trivial].
        * intros [= <- <-]. exists [EvCall x].
          split; [exact (call_follows _ _ _ Ec)|].
          split; [now repeat constructor | trivial].
      + intros [= <- <-]. exists []. split; [apply follows_refl|].
        split; [constructor | trivial]. }
    exists evs. split; [exact F|]. apply forallb_forall.
    intros e He. rewrite Forall_forall in Q. now apply Q. }
  destruct r0 as [fmt|e]; unfold lift; intros [= <- <-]; exact H0.
Qed.

(** The service is announced to the group, or the pass raises; nothing is
    sent to another address. *)
Lemma notify_service_spec (nts : bytes) (d : service_descriptor World)
  (service : dict value) (st st' : state) (r : res unit) :
  notify_service sock_sendto self nts d service st = (r, st') ->
  exists evs, follows st evs st' /\
    Forall (fun e => forall data dest,
                e = EvSendTo data dest -> dest = (address self, port self)) evs /\
    (is_ok r = true ->
     announced (address self, port self) nts (d, service) evs).
Proof.
  unfold notify_service, bind.
  destruct (create_fmt (params d) service st) as [[fmt|e] st1] eqn:Ec;
    destruct (create_fmt_calls _ _ _ Ec) as (calls & Fc & Hc).
  - assert (Hq : Forall (fun e => forall data dest,
                   e = EvSendTo data dest -> dest = (address self, port self))
                   calls).
    { apply Forall_forall. intros e He data dest ->.
      rewrite forallb_forall in Hc. specialize (Hc _ He). discriminate. }
    unfold lift. destruct (render (NOTIFY d) _) as [data|e] eqn:Er.
    + intros Hs. pose proof (sendto_follows _ _ _ Hs) as Fs.
      exists (calls ++ [EvSendTo data (address self, port self)])%list.
      split; [eapply follows_trans; eassumption|]. split.
      * apply Forall_app. split; [exact Hq|]. constructor; [|constructor].
        now intros data0 dest [= _ <-].
      * intros _. exists fmt, calls, data. split; [|now split].
        split; [exact Hc|]. now exists st, st1.
    + intros [= <- <-]. exists calls. split; [exact Fc|].
      split; [exact Hq | discriminate].
  - intros [= <- <-]. exists calls. split; [exact Fc|]. split; [|discriminate].
    apply Forall_forall. intros e0 He data dest ->.
    rewrite forallb_forall in Hc. specialize (Hc _ He). discriminate.
Qed.

(** Every service is announced in turn, or the pass raises. *)
Lemma notify_all_spec (nts : bytes) (ds : list (service_descriptor World))
  (st st' : state) (r : res unit) :
  notify_all sock_sendto self nts ds st = (r, st') ->
  exists evs, follows st evs st' /\
    Forall (fun e => forall data dest,
                e = EvSendTo data dest -> dest = (address self, port self)) evs /\
    (is_ok r = true ->
     exists segs, evs = List.concat segs /\
       Forall2 (announced (address self, port self) nts)
         (all_services ds) segs).
Proof.
  unfold notify_all. intros H.
  eapply (@for_each_follows World _ _
            (fun e => forall data dest,
                 e = EvSendTo data dest -> dest = (address self, port self))
            (fun d evs => exists segs,
                 evs = List.concat segs /\
                 Forall2 (announced (address self, port self) nts)
                   (map (pair d) (services d)) segs))
    in H; [destruct H as (evs & F & Q & P)|].
  2:{ intros d st1 r1 st1' H1.
      eapply (@for_each_follows World _ _ _
                (fun service evs =>
                   announced (address self, port self) nts (d, service) evs))
        in H1; [|intros x st0 r0 st0'; apply notify_service_spec].
      destruct H1 as (evs1 & F1 & Q1 & P1).
      exists evs1. split; [exact F1|]. split; [exact Q1|].
      intros Hr. destruct (P1 Hr) as (segs & -> & HF).
      exists segs. split; [reflexivity|]. now apply Forall2_map_l. }
  exists evs. split; [exact F|]. split; [exact Q|]. intros Hr.
  destruct (P Hr) as (evss & -> & HF).
  eapply Forall2_flat_map. exact HF.
Qed.

End Facts.

End ResponderFacts.

(** ** Facts about the search *)

Module SearchFacts.

Import Parser Descriptor Responder ResponderSpec SearchSpec Observed.
Import EngineFacts PyBytesFacts.

Local Open Scope string_scope.

Lemma encode_ascii_bytes (s : string) (b : bytes) :
  encode_ascii s = Ok b -> b = B s /\ string_forallb is_ascii s = true.
Proof.
  revert b. induction s as [|c s IH]; intros b; cbn [encode_ascii].
  - intros [= <-]. now split.
  - unfold B. cbn [list_byte_of_string string_forallb]. unfold is_ascii at 1.
    destruct (N_of_ascii c <? 128)%N; [|discriminate].
    destruct (encode_ascii s) as [b'|e]; [|discriminate].
    intros [= <-]. destruct (IH b' eq_refl) as [-> ->]. now split.
Qed.

Lemma encode_ascii_raises (s : string) (e : exn) :
  encode_ascii s = Raise e ->
  e = UnicodeEncodeError /\ string_forallb is_ascii s = false.
Proof.
  induction s as [|c s IH]; cbn [encode_ascii string_forallb]; [discriminate|].
  unfold is_ascii at 1. destruct (N_of_ascii c <? 128)%N.
  - destruct (encode_ascii s) as [b'|e']; [discriminate|].
    intros [= <-]. now destruct (IH eq_refl) as [-> ->].
  - intros [= <-]. now split.
Qed.

(** The comparison of the code is the comparison with the [st] field. *)
Lemma encoded_st_ok (fmt : dict value) (b v : bytes) :
  encoded_st fmt = Ok b ->
  st_error fmt = None /\ equals_st fmt v = PyBytes.eqb b v.
Proof.
  unfold encoded_st, getitem, st_error, equals_st.
  destruct (get fmt "st") as [[s|?|?]|]; try discriminate.
  intros H. destruct (encode_ascii_bytes _ H) as [-> ->]. now split.
Qed.

Lemma encoded_st_raises (fmt : dict value) (e : exn) :
  encoded_st fmt = Raise e -> st_error fmt = Some e.
Proof.
  unfold encoded_st, getitem, st_error.
  destruct (get fmt "st") as [[s|?|?]|]; try (now intros [= <-]).
  intros H. now destruct (encode_ascii_raises _ H) as [-> ->].
Qed.

Section Facts.

Variable World : Type.
Variable sock_sendto : World -> bytes -> addr -> res unit * World.

Let state : Type := Responder.state World.

Lemma chain_app {A} (step : A -> state -> state -> Prop) (l1 l2 : list A)
  (st st1 st2 : state) :
  chain step l1 st st1 -> chain step l2 st1 st2 ->
  chain step (l1 ++ l2) st st2.
Proof.
  induction 1 as [|x l s s1 s2 Hx _ IH]; intros H2; [exact H2|].
  cbn [app]. econstructor; [exact Hx | now apply IH].
Qed.

Lemma chain_map {A C} (f : A -> C) (step : C -> state -> state -> Prop)
  (l : list A) (st st' : state) :
  chain (fun x => step (f x)) l st st' -> chain step (map f l) st st'.
Proof.
  induction 1 as [|x l s s1 s2 Hx _ IH]; cbn [map]; econstructor; eassumption.
Qed.

(** A loop, step by step: it returns after every element was done, or it
    ends at the first element whose step raises. *)
Lemma fold_each_chain {A S} (body : S -> A -> M World S)
  (step : A -> state -> state -> Prop)
  (fail : A -> exn -> state -> state -> Prop) :
  (forall s x st r st',
     body s x st = (r, st') ->
     match r with
     | Ok _ => step x st st'
     | Raise e => fail x e st st'
     end) ->
  forall (l : list A) (s : S) (st : state) (r : res S) (st' : state),
    fold_each body l s st = (r, st') ->
    match r with
    | Ok _ => chain step l st st'
    | Raise e =>
        exists l1 x l2 st1,
          l = (l1 ++ x :: l2)%list /\ chain step l1 st st1 /\
          fail x e st1 st'
    end.
Proof.
  intros Hbody. induction l as [|x l IH]; intros s st r st'; cbn [fold_each].
  - unfold ret. intros [= <- <-]. constructor.
  - unfold bind. destruct (body s x st) as [[s1|e] st1] eqn:Eb.
    + intros H. specialize (Hbody _ _ _ _ _ Eb). cbn beta iota in Hbody.
      specialize (IH _ _ _ _ H). destruct r as [s2|e].
      * econstructor; eassumption.
      * destruct IH as (l1 & y & l2 & st2 & -> & Hc & Hf).
        exists (x :: l1), y, l2, st2. split; [reflexivity|].
        split; [econstructor; eassumption | exact Hf].
    + intros [= <- <-]. specialize (Hbody _ _ _ _ _ Eb). cbn beta iota in Hbody.
      exists [], x, l, st. split; [reflexivity|].
      split; [constructor | exact Hbody].
Qed.

(** One value of the ST header. *)
Lemma respond_type_cases (d : service_descriptor World) (fmt : dict value)
  (request : Request) (found : bool) (v : bytes) (st : state)
  (r : res bool) (st' : state) :
  respond_type sock_sendto d fmt request found v st = (r, st') ->
  match r with
  | Ok _ => answers sock_sendto d fmt request v st st'
  | Raise e => fails_at sock_sendto d fmt request v e st st'
  end.
Proof.
  unfold respond_type, bind, answers, fails_at, target_matches, generic.
  assert (Hsend : forall (r1 : res bool) (st1' : state),
             match render (OK d) fmt with
             | Ok data =>
                 match send sock_sendto d data (REMOTE request) st with
                 | (Ok _, s) => ret true s
                 | (Raise e, s) => (Raise e, s)
                 end
             | Raise e => (Raise e, st)
             end = (r1, st1') ->
             match r1 with
             | Ok _ =>
                 exists data, render (OK d) fmt = Ok data /\
                   sendto sock_sendto data (REMOTE request) st = (Ok tt, st1')
             | Raise e =>
                 (render (OK d) fmt = Raise e /\ st1' = st)
                 \/ exists data, render (OK d) fmt = Ok data /\
                      sendto sock_sendto data (REMOTE request) st
                      = (Raise e, st1')
             end).
  { intros r1 st1'. unfold send.
    destruct (render (OK d) fmt) as [data|e].
    - destruct (sendto sock_sendto data (REMOTE request) st)
        as [[[]|e] s] eqn:Es; unfold ret; intros [= <- <-].
      + now exists data.
      + right. now exists data.
    - intros [= <- <-]. now left. }
  destruct (startswith (B "ssdp:") v) eqn:Ep; cbn [negb orb].
  - unfold ret at 1. intros H. specialize (Hsend _ _ H).
    destruct r as [f|e]; [exact Hsend|].
    right. split; [reflexivity|]. split; [now left | exact Hsend].
  - unfold lift at 1. destruct (encoded_st fmt) as [b|e] eqn:Ee.
    + destruct (@encoded_st_ok fmt b v Ee) as [Herr ->].
      unfold ret at 1. destruct (PyBytes.eqb b v); cbn [negb].
      * intros H. specialize (Hsend _ _ H).
        destruct r as [f|e]; [exact Hsend|].
        right. split; [reflexivity|]. split; [now right | exact Hsend].
      * unfold ret. now intros [= <- <-].
    + intros [= <- <-]. left. split; [reflexivity|].
      split; [now apply encoded_st_raises | reflexivity].
Qed.

(** One service. *)
Lemma respond_service_cases (d : service_descriptor World)
  (request : Request) (found : bool) (service : dict value) (st : state)
  (r : res bool) (st' : state) :
  respond_service sock_sendto d request found service st = (r, st') ->
  match r with
  | Ok _ => serves sock_sendto request (d, service) st st'
  | Raise e => fails_in sock_sendto request (d, service) e st st'
  end.
Proof.
  unfold respond_service, bind, serves, fails_in. cbn [fst snd].
  destruct (create_fmt (params d) service st) as [[fmt|e] st1] eqn:Ec.
  - intros H.
    apply (fold_each_chain
             (respond_type sock_sendto d fmt request)
             (answers sock_sendto d fmt request)
             (fails_at sock_sendto d fmt request)) in H;
      [|intros s x s0 r0 s0'; apply respond_type_cases].
    destruct r as [f|e].
    + now exists fmt, st1.
    + destruct H as (vs & v & vs' & st2 & Hv & Hc & Hf).
      right. now exists fmt, st1, vs, v, vs', st2.
  - intros [= <- <-]. now left.
Qed.

(** Every service of every descriptor. *)
Lemma respond_all_cases (request : Request)
  (ds : list (service_descriptor World)) (found : bool) (st : state)
  (r : res bool) (st' : state) :
  respond_all sock_sendto request ds found st = (r, st') ->
  match r with
  | Ok _ => chain (serves sock_sendto request) (all_services ds) st st'
  | Raise e =>
      exists done s rest st1,
        all_services ds = (done ++ s :: rest)%list /\
        chain (serves sock_sendto request) done st st1 /\
        fails_in sock_sendto request s e st1 st'
  end.
Proof.
  unfold respond_all. revert found st r st'.
  induction ds as [|d ds IH]; intros found st r st'; cbn [fold_each].
  - unfold ret. intros [= <- <-]. constructor.
  - unfold all_services. cbn [flat_map]. fold (all_services ds).
    unfold bind at 1.
    destruct (fold_each (respond_service sock_sendto d request) (services d)
                found st) as [[f1|e1] st1] eqn:E1.
    + apply (fold_each_chain
               (respond_service sock_sendto d request)
               (fun s => serves sock_sendto request (d, s))
               (fun s => fails_in sock_sendto request (d, s))) in E1;
        [|intros s x s0 r0 s0'; apply respond_service_cases].
      cbn beta iota in E1. apply chain_map in E1.
      intros H. specialize (IH _ _ _ _ H). destruct r as [f|e].
      * eapply chain_app; eassumption.
      * destruct IH as (done & s & rest & st2 & -> & Hc & Hf).
        exists (map (pair d) (services d) ++ done)%list, s, rest, st2.
        split; [now rewrite <- app_assoc|].
        split; [eapply chain_app; eassumption | exact Hf].
    + intros [= <- <-].
      apply (fold_each_chain
               (respond_service sock_sendto d request)
               (fun s => serves sock_sendto request (d, s))
               (fun s => fails_in sock_sendto request (d, s))) in E1;
        [|intros s x s0 r0 s0'; apply respond_service_cases].
      destruct E1 as (l1 & x & l2 & st2 & Hl & Hc & Hf).
      exists (map (pair d) l1), (d, x), (map (pair d) l2 ++ all_services ds)%list, st2.
      split; [|split; [now apply chain_map | exact Hf]].
      rewrite Hl, map_app. cbn [map]. now rewrite <- app_assoc.
Qed.

End Facts.

End SearchFacts.

(** ** The responder: matching, failures, shutdown *)

Module ResponderClaims.

Import Parser Descriptor Responder ParserSpec ResponderSpec SearchSpec.
Import Examples MoreExamples.
Import PyBytesFacts ParserFacts EngineFacts ResponderFacts SearchFacts.

Section Claims.

Variable World : Type.
Variable sock_sendto : World -> bytes -> addr -> res unit * World.
Variable self : responder World.

Let state : Type := Responder.state World.

(** C1, as the code has it. [respond_ok_static] takes the services of
    every descriptor in order; for each one it resolves the fields in the
    state reached and then takes the values of the ST header in order: a
    value that starts with [ssdp:], or that is byte for byte the resolved
    [st] field, has one response rendered and sent to the requester, and
    any other value has nothing done for it. This holds of every service
    and value up to the first step that raises: when none does, the
    search is logged and the handler returns; otherwise the handler ends
    there with that exception, and no later value or service is
    answered. *)
Theorem search_target_matching (ds : list (service_descriptor World))
  (request : Request) (st : state) (r : res unit) (st' : state) :
  self_services self = Some ds ->
  respond_ok_static sock_sendto self request st = (r, st') ->
  match r with
  | Ok _ =>
      exists st1 found,
        chain (serves sock_sendto request) (all_services ds) st st1 /\
        st' = log (EvLogSearch (headers_get (HEADERS request) (B "ST")) found)
                st1
  | Raise e =>
      exists done s rest st1,
        all_services ds = (done ++ s :: rest)%list /\
        chain (serves sock_sendto request) done st st1 /\
        fails_in sock_sendto request s e st1 st'
  end.
Proof.
  intros Hs. unfold respond_ok_static, iter_services, bind. rewrite Hs.
  unfold ret at 1.
  destruct (respond_all sock_sendto request ds false st) as [[found|e] st1]
    eqn:Er.
  - unfold emit. intros [= <- <-]. exists st1, found.
    split; [|reflexivity].
    exact (respond_all_cases _ _ _ _ _ Er).
  - intros [= <- <-]. exact (respond_all_cases _ _ _ _ _ Er).
Qed.

(** C3, as the code has it. A datagram that does not begin with
    [M-SEARCH] or [NOTIFY] is dropped: the turn of the loop returns and
    changes nothing. A datagram that begins with one of them and is not
    well formed makes [parse_request] raise [ValueError], and the loop of
    [run] ends with that exception, the rest of the queue unread. A
    well-formed one is parsed. *)
Theorem malformed_datagram_raises (data : bytes) (sender : addr) :
  (recognized_verb data = false ->
   forall st : state,
     run_step sock_sendto self (data, sender) st = (Ok tt, st)) /\
  (recognized_verb data = true -> well_formed data = false ->
   parse_request (data, sender) = Raise ValueError /\
   forall queue (st : state),
     running st <> 0%Z ->
     run sock_sendto self ((data, sender) :: queue) st
     = (Raise ValueError, st)) /\
  (recognized_verb data = true -> well_formed data = true ->
   exists r, parse_request (data, sender) = Ok (Some r)).
Proof.
  split; [|split].
  - intros Hv st. unfold run_step, bind, lift.
    now rewrite parse_request_cases, Hv.
  - intros Hv Hwf.
    assert (Hp : parse_request (data, sender) = Raise ValueError)
      by now rewrite parse_request_cases, Hv, Hwf.
    split; [exact Hp|]. intros queue st Hrun. cbn [run].
    destruct (Z.eqb_spec (running st) 0) as [E|_]; [contradiction|].
    unfold bind, run_step, lift. now rewrite Hp.
  - intros Hv Hwf.
    destruct (parse_request_ok data sender Hv Hwf) as (r & Hr & _).
    now exists r.
Qed.




(** C6, as the code has it. No exception is caught: when the work for
    one service raises, in an announcement pass or in the answer to a
    search, the loops end there with that exception and in the state the
    failure left, so nothing is attempted for the services that follow.
    A call of [sendto] that raises makes the work for its service
    raise, the datagram being the last thing attempted. *)
Theorem failure_aborts_iteration
  (pre post : list (service_descriptor World)) (d : service_descriptor World)
  (spre spost : list (dict value)) (s : dict value) :
  self_services self = Some (pre ++ d :: post)%list ->
  services d = (spre ++ s :: spost)%list ->
  (forall nts (st st0 st1 st2 : state) e,
     notify_all sock_sendto self nts pre st = (Ok tt, st0) ->
     for_each (notify_service sock_sendto self nts d) spre st0 = (Ok tt, st1) ->
     notify_service sock_sendto self nts d s st1 = (Raise e, st2) ->
     do_notify sock_sendto self nts st = (Raise e, st2)) /\
  (forall request (st st0 st1 st2 : state) f0 f1 e,
     respond_all sock_sendto request pre false st = (Ok f0, st0) ->
     fold_each (respond_service sock_sendto d request) spre f0 st0
     = (Ok f1, st1) ->
     respond_service sock_sendto d request f1 s st1 = (Raise e, st2) ->
     respond_ok_static sock_sendto self request st = (Raise e, st2)) /\
  (forall nts (st st1 : state) fmt data e w,
     create_fmt (params d) s st = (Ok fmt, st1) ->
     render (NOTIFY d) (set fmt "nts" (VBytes nts)) = Ok data ->
     sock_sendto (world st1) data (address self, port self) = (Raise e, w) ->
     notify_service sock_sendto self nts d s st
     = (Raise e,
        with_world w (log (EvSendTo data (address self, port self)) st1))).
Proof.
  intros Hs Hd. split; [|split].
  - intros nts st st0 st1 st2 e H0 H1 H2.
    unfold do_notify, iter_services, bind. rewrite Hs. unfold ret at 1.
    unfold notify_all in *. rewrite for_each_app, H0.
    cbn [for_each]. unfold bind at 1. rewrite Hd, for_each_app, H1.
    cbn [for_each]. unfold bind at 1. now rewrite H2.
  - intros request st st0 st1 st2 f0 f1 e H0 H1 H2.
    unfold respond_ok_static, iter_services, bind. rewrite Hs.
    unfold ret at 1. unfold respond_all in *. rewrite fold_each_app, H0.
    cbn [fold_each]. unfold bind at 1. rewrite Hd, fold_each_app, H1.
    cbn [fold_each]. unfold bind at 1. now rewrite H2.
  - intros nts st st1 fmt data e w Hc Hr Hsend.
    unfold notify_service, bind. rewrite Hc. unfold lift. rewrite Hr.
    unfold sendto. now rewrite Hsend.
Qed.

(** C10. A responder made by the constructor of the base class without
    services has [None] for services, and for it [respond_ok] returns at
    once: the state, and so the trace, is what it was. *)
Theorem respond_ok_without_services
  (address : option string) (port buffer_size : option Z)
  (st st' : state) (new : responder World) :
  UPnPServiceResponder address port buffer_size None st = (Ok new, st') ->
  self_services new = None /\
  forall request (st1 : state),
    respond_ok sock_sendto new request st1 = (Ok tt, st1).
Proof.
  unfold UPnPServiceResponder, init, bind.
  destruct (Responder.setup_sockets _ st) as [[[]|e] st1]; [|discriminate].
  unfold start, ret. intros [= <- _]. split; [reflexivity|].
  intros request st2. reflexivity.
Qed.

End Claims.

Lemma search_target_matching_witness :
  exists st1 found,
    chain (serves sendto0 (request_of search2))
      [(descriptor0, service1); (descriptor0, service2)] (st0 []) st1 /\
    snd (respond_ok_static sendto0 self0 (request_of search2) (st0 []))
    = log (EvLogSearch [B "urn:test:device:2"; B "ssdp:all"] found) st1.
Proof.
  apply (@search_target_matching W sendto0 self0 [descriptor0]
           (request_of search2) (st0 []) (Ok tt)
           (snd (respond_ok_static sendto0 self0 (request_of search2)
                   (st0 []))));
    reflexivity.
Defined.

(** C1, as it is stated, fails: the service before [service2] has no
    [st] field, the search for the target of [service2] ends there with
    [KeyError], and [service2], whose resolved [st] field is the value
    searched for, is not answered. *)
Lemma matching_service_left_unanswered :
  headers_get (HEADERS search_two) (B "ST") = [B "urn:test:device:2"] /\
  (exists fmt st1,
     create_fmt (params descriptor1) service2 (st0 []) = (Ok fmt, st1) /\
     get fmt "st" = Some (VStr "urn:test:device:2")) /\
  fst (respond_ok_static sendto0 self1 search_two (st0 [])) = Raise KeyError /\
  sends (trace (snd (respond_ok_static sendto0 self1 search_two (st0 []))))
  = [].
Proof.
  split; [reflexivity|]. split; [|split; reflexivity].
  eexists. eexists. split; [vm_compute; reflexivity | reflexivity].
Qed.

(** C3, as it is stated, fails: a request line of two tokens ends the
    loop with [ValueError]. *)
Lemma run_raises_on_short_request_line :
  recognized_verb short_line = true /\
  fst (run sendto0 self0 [(short_line, requester)] (st0 []))
  = Raise ValueError.
Proof. split; reflexivity. Qed.

Lemma malformed_datagram_raises_witness :
  run_step sendto0 self0 (B "GET / HTTP/1.1", requester) (st0 [])
  = (Ok tt, st0 []) /\
  run sendto0 self0 [(short_line, requester); (search "ssdp:all", requester)]
    (st0 [])
  = (Raise ValueError, st0 []) /\
  exists r, parse_request (search2, requester) = Ok (Some r).
Proof.
  split; [|split].
  - apply (@malformed_datagram_raises W sendto0 self0
             (B "GET / HTTP/1.1") requester). reflexivity.
  - apply (@malformed_datagram_raises W sendto0 self0 short_line requester);
      [reflexivity | reflexivity | discriminate].
  - apply (@malformed_datagram_raises W sendto0 self0 search2 requester);
      reflexivity.
Defined.



(** C6, as it is stated, fails: the first call of [sendto] raises, and
    the response for the second service is never attempted. *)
Lemma send_failure_stops_the_responses :
  fst (respond_ok_static sendto0 self0 (request_of (search "ssdp:all"))
         (st0 []))
  = Ok tt /\
  List.length
    (sends (trace (snd (respond_ok_static sendto0 self0
                          (request_of (search "ssdp:all")) (st0 [])))))
  = 2%nat /\
  fst (respond_ok_static sendto0 self0 (request_of (search "ssdp:all"))
         (st0 [false]))
  = Raise OSError /\
  List.length
    (sends (trace (snd (respond_ok_static sendto0 self0
                          (request_of (search "ssdp:all")) (st0 [false])))))
  = 1%nat.
Proof. repeat split; reflexivity. Qed.

Lemma failure_aborts_iteration_witness :
  fst (do_notify sendto0 self0 (B "ssdp:alive") (st0 [false])) = Raise OSError /\
  List.length
    (sends (trace (snd (do_notify sendto0 self0 (B "ssdp:alive")
                          (st0 [false])))))
  = 1%nat.
Proof.
  destruct (@failure_aborts_iteration W sendto0 self0 [] [] descriptor0
              [] [service2] service1 eq_refl eq_refl) as (Hn & _ & _).
  assert (H : do_notify sendto0 self0 (B "ssdp:alive") (st0 [false])
              = (Raise OSError,
                 snd (notify_service sendto0 self0 (B "ssdp:alive")
                        descriptor0 service1 (st0 [false])))).
  { apply (Hn (B "ssdp:alive") (st0 [false]) (st0 [false]) (st0 [false]));
      reflexivity. }
  rewrite H. split; reflexivity.
Defined.

Lemma respond_ok_without_services_witness :
  exists new,
    fst (UPnPServiceResponder None None None None (st0 [])) = Ok new /\
    self_services new = None /\
    respond_ok sendto0 new (request_of (search "ssdp:all")) (st0 [])
    = (Ok tt, st0 []).
Proof.
  destruct (UPnPServiceResponder (World := W) None None None None (st0 []))
    as [[new|e] st'] eqn:E; [|discriminate].
  exists new. split; [reflexivity|].
  destruct (@respond_ok_without_services W sendto0 None None None
              (st0 []) st' new E) as [Hn Hr].
  split; [exact Hn | apply Hr].
Defined.

End ResponderClaims.

(** ** The constructor of the spoofing responder *)

Module SpoofingClaims.

Import Parser Descriptor Responder Spoofing Examples.

Section Claims.

Variable World : Type.
Variable getpwnam : string -> option Z.
Variable getgrnam : string -> option Z.

Let state : Type := Responder.state World.

Lemma socket_raw (family proto : string) (st : state) :
  socket family "SOCK_RAW" proto st
  = (if (uid st =? 0)%Z then Ok tt else Raise OSError,
     log (EvSocket family "SOCK_RAW" proto) st).
Proof.
  unfold socket. rewrite String.eqb_refl.
  destruct (uid st =? 0)%Z; reflexivity.
Qed.

(** C7, against the code. The constructor of [SpoofingUPnPServiceResponder]
    never returns and never drops privileges: the constructor of the base
    class calls [setup_sockets] of the subclass, which reads
    [self.interface] before the subclass assigns it. For the superuser
    the two raw sockets are opened and [AttributeError] is raised; for
    another user the first raw socket is refused. And with any
    [setup_sockets] that returns, the constructor starts the receiver and
    the scheduler as the superuser before it drops privileges. *)
Theorem spoofing_constructor_drops_too_late
  (address : option string) (port buffer_size : option Z)
  (services : option (list (service_descriptor World)))
  (user group interface : option string) :
  (forall st : state,
     SpoofingUPnPServiceResponder getpwnam getgrnam address port buffer_size
       services user group interface st
     = if (uid st =? 0)%Z
       then (Raise AttributeError,
             log (EvSocket "AF_PACKET" "SOCK_RAW" "")
               (log (EvSocket "AF_INET" "SOCK_RAW" "IPPROTO_RAW") st))
       else (Raise OSError,
             log (EvSocket "AF_INET" "SOCK_RAW" "IPPROTO_RAW") st)) /\
  (forall (setup : spoofing_responder World -> M World unit)
          (st st1 : state) (u g : Z),
     (forall b, setup b st = (Ok tt, st1)) ->
     uid st1 = 0%Z ->
     getpwnam (or_default user default_user) = Some u ->
     getgrnam (or_default group default_group) = Some g ->
     exists new st2,
       init_with getpwnam getgrnam setup address port buffer_size services
         user group interface st = (Ok new, st2) /\
       uid st2 = u /\
       trace st2
       = (trace st1 ++ [EvStart reciever_thread 0; EvStart schedule_thread 0;
                        EvSetgroups []; EvSetgid g; EvSetuid u;
                        EvUmask 63])%list).
Proof.
  split.
  - intros st. unfold SpoofingUPnPServiceResponder, init_with, init, bind.
    unfold setup_sockets, bind. rewrite socket_raw.
    destruct (uid st =? 0)%Z eqn:E; [|reflexivity].
    rewrite socket_raw. cbn [uid log]. rewrite E. reflexivity.
  - intros setup st st1 u g Hsetup Hroot Hu Hg.
    unfold init_with, init, bind. rewrite Hsetup.
    unfold start, ret, drop_privileges, bind, lookup, emit, setuid.
    cbn [uid log with_running with_uid]. rewrite Hroot. cbn [Z.eqb negb].
    rewrite Hu, Hg. unfold ret. cbn [fst snd].
    eexists. eexists. split; [reflexivity|].
    cbn [uid trace log with_running with_uid]. split; [reflexivity|].
    now rewrite <- !app_assoc.
Qed.

End Claims.

Lemma spoofing_constructor_drops_too_late_witness :
  fst (SpoofingUPnPServiceResponder getpwnam0 getgrnam0 None None None
         (Some [descriptor0]) None None None root0)
  = Raise AttributeError /\
  exists new st2,
    init_with getpwnam0 getgrnam0 (fun _ => ret tt) None None None
      (Some [descriptor0]) None None None root0 = (Ok new, st2) /\
    uid st2 = 65534%Z /\
    trace st2
    = [EvStart reciever_thread 0; EvStart schedule_thread 0;
       EvSetgroups []; EvSetgid 65534; EvSetuid 65534; EvUmask 63].
Proof.
  destruct (@spoofing_constructor_drops_too_late W getpwnam0 getgrnam0
              None None None (Some [descriptor0]) None None None)
    as [Hraise Horder].
  split.
  - rewrite Hraise. reflexivity.
  - apply (Horder (fun _ => ret tt) root0 root0 65534%Z 65534%Z);
      reflexivity.
Defined.

End SpoofingClaims.

(** ** More about the parser *)

Module ParserMore.

Import Parser ParserSpec Observed Examples.
Import PyBytesFacts ParserFacts.

Lemma remove_idempotent (c : byte) (d : bytes) :
  remove c (remove c d) = remove c d.
Proof.
  unfold remove. induction d as [|x d IH]; [reflexivity|]. cbn [filter].
  destruct (negb (Byte.eqb x c)) eqn:E; [|exact IH].
  cbn [filter]. now rewrite E, IH.
Qed.

Lemma startswith_remove (c : byte) (p d : bytes) :
  has_byte c p = false ->
  startswith p d = true -> startswith p (remove c d) = true.
Proof.
  revert d. induction p as [|x p IH]; intros d Hp Hs; [reflexivity|].
  destruct d as [|y d]; [discriminate|].
  cbn [startswith] in Hs. apply andb_true_iff in Hs as [Hxy Hs].
  cbn [has_byte existsb] in Hp. apply orb_false_iff in Hp as [Hxc Hp].
  apply Byte.byte_dec_bl in Hxy. subst y.
  unfold remove. cbn [filter]. rewrite Hxc. cbn [negb startswith].
  rewrite byte_eqb_refl. cbn [andb]. now apply IH.
Qed.

(** X1. A datagram that begins with a recognized verb parses the same
    with and without its carriage returns: line endings [CRLF] and bare
    [LF] are treated alike. *)
Theorem parse_request_ignores_cr (data : bytes) (sender : addr) :
  recognized_verb data = true ->
  parse_request (data, sender) = parse_request (remove CR data, sender).
Proof.
  intros Hv.
  assert (Hv' : recognized_verb (remove CR data) = true).
  { unfold recognized_verb in *. apply orb_true_iff in Hv as [H|H].
    - rewrite (startswith_remove CR (B "M-SEARCH") data eq_refl H). reflexivity.
    - rewrite (startswith_remove CR (B "NOTIFY") data eq_refl H).
      apply orb_true_r. }
  rewrite !parse_request_cases, Hv, Hv'.
  unfold well_formed, request_line, header_block.
  now rewrite !remove_idempotent.
Qed.

Lemma parse_request_ignores_cr_witness :
  parse_request (search "ssdp:all", requester)
  = parse_request (remove CR (search "ssdp:all"), requester).
Proof.
  apply (@parse_request_ignores_cr (search "ssdp:all") requester).
  reflexivity.
Defined.

(** What [lstrip] leaves is the end of its argument and does not begin
    with whitespace. *)
Lemma lstrip_suffix (d : bytes) : exists p, d = (p ++ lstrip d)%list.
Proof.
  induction d as [|c d [p IH]]; [now exists []|]. cbn [lstrip].
  destruct (is_space c).
  - exists (c :: p). cbn. now rewrite <- IH.
  - now exists [].
Qed.

Lemma lstrip_head (d : bytes) (c : byte) (r : bytes) :
  lstrip d = c :: r -> is_space c = false.
Proof.
  induction d as [|x d IH]; cbn [lstrip]; [discriminate|].
  destruct (is_space x) eqn:E; [exact IH|]. now intros [= <- _].
Qed.

Lemma last_rev_cons (c : byte) (z : bytes) (x : byte) :
  last (rev (c :: z)) x = c.
Proof. cbn [rev]. apply last_last. Qed.

Lemma strip_trimmed (d : bytes) : trimmed (strip d).
Proof.
  unfold strip, rstrip, trimmed.
  destruct (lstrip_suffix (rev (lstrip d))) as [p Hp].
  destruct (lstrip (rev (lstrip d))) as [|c z] eqn:Ez; [exact I|].
  pose proof (lstrip_head _ Ez) as Hc.
  destruct (rev (c :: z)) as [|h t] eqn:Er.
  { apply (f_equal (@List.length byte)) in Er. rewrite length_rev in Er.
    discriminate. }
  split.
  - apply (f_equal (@rev byte)) in Hp. rewrite rev_involutive, rev_app_distr in Hp.
    rewrite Er in Hp. cbn [app] in Hp. exact (lstrip_head _ Hp).
  - rewrite <- Er. now rewrite last_rev_cons.
Qed.

Lemma before_no_sep (sep : byte) (d : bytes) :
  has_byte sep (before sep d) = false.
Proof.
  induction d as [|c d IH]; [reflexivity|]. cbn [before].
  destruct (Byte.eqb c sep) eqn:E; [reflexivity|].
  cbn [has_byte existsb]. now rewrite E.
Qed.

Lemma fields_of_shape (lines : list bytes) (f : bytes * bytes) :
  In f (fields_of lines) ->
  exists l, f = (before COLON l, strip (after COLON l)).
Proof.
  unfold fields_of. rewrite in_flat_map. intros (line & _ & Hf).
  destruct (strip line) as [|c l]; [contradiction|].
  destruct Hf as [<-|[]]. now exists (c :: l).
Qed.

(** X2. In a parsed request every header value is stored without leading
    or trailing whitespace, and no header name holds a colon. *)
Theorem parsed_headers_are_trimmed (data : bytes) (sender : addr)
  (r : Request) (h v : bytes) :
  parse_request (data, sender) = Ok (Some r) ->
  In v (headers_get (HEADERS r) h) ->
  trimmed v /\ has_byte COLON h = false.
Proof.
  intros Hp Hin. rewrite parse_request_cases in Hp.
  destruct (recognized_verb data) eqn:Hv; [|discriminate]. cbn [negb] in Hp.
  destruct (well_formed data) eqn:Hwf; [|discriminate].
  destruct (parse_request_ok data sender Hv Hwf) as (r' & Hr' & _ & _ & Hget).
  rewrite parse_request_cases, Hv, Hwf in Hr'. cbn [negb] in Hr'.
  rewrite Hr' in Hp. injection Hp as <-.
  rewrite Hget in Hin. unfold values_of in Hin.
  apply in_map_iff in Hin as (f & <- & Hf).
  apply filter_In in Hf as [Hf Hname].
  destruct (fields_of_shape _ _ Hf) as [l ->]. cbn [fst snd] in *.
  apply eqb_eq in Hname. subst h.
  split; [apply strip_trimmed | apply before_no_sep].
Qed.

Lemma parsed_headers_are_trimmed_witness :
  trimmed (B "urn:test:device:2") /\ has_byte COLON (B "ST") = false.
Proof.
  apply (@parsed_headers_are_trimmed search2 requester (request_of search2)
           (B "ST") (B "urn:test:device:2")).
  - reflexivity.
  - left. reflexivity.
Defined.

(** X3. [parse_request] over a list of handlers: the first handler that
    returns a request decides, the handlers before it having returned
    nothing; nothing is returned exactly when every handler returns
    nothing. *)
Theorem first_handler_wins (hs : list handler) (request : bytes * addr) :
  (forall r,
     parse_request_with hs request = Ok (Some r) <->
     exists pre h post,
       hs = (pre ++ h :: post)%list /\
       Forall (fun g => g request = Ok None) pre /\
       h request = Ok (Some r)) /\
  (parse_request_with hs request = Ok None <->
   Forall (fun g => g request = Ok None) hs).
Proof.
  induction hs as [|g hs [IHs IHn]]; split.
  - intros r. split; [discriminate|].
    intros (pre & h & post & H & _). now destruct pre.
  - split; [constructor | reflexivity].
  - intros r. cbn [parse_request_with].
    destruct (g request) as [[r0|]|e] eqn:Eg; split.
    + intros [= ->]. exists [], g, hs. now repeat split.
    + intros (pre & h & post & H & Hpre & Hh). destruct pre as [|g' pre].
      * injection H as <- _. congruence.
      * injection H as <- _. inversion Hpre. congruence.
    + intros H. apply IHs in H as (pre & h & post & -> & Hpre & Hh).
      exists (g :: pre), h, post. repeat split; [|exact Hh].
      now constructor.
    + intros (pre & h & post & H & Hpre & Hh). apply IHs.
      destruct pre as [|g' pre].
      * injection H as <- _. congruence.
      * injection H as <- ->. inversion Hpre. now exists pre, h, post.
    + discriminate.
    + intros (pre & h & post & H & Hpre & Hh). destruct pre as [|g' pre].
      * injection H as <- _. congruence.
      * injection H as <- _. inversion Hpre. congruence.
  - cbn [parse_request_with].
    destruct (g request) as [[r0|]|e] eqn:Eg; split;
      try discriminate; try (intros H; inversion H; congruence).
    + intros H. constructor; [exact Eg | now apply IHn].
    + intros H. apply IHn. now inversion H.
Qed.

Lemma first_handler_wins_witness :
  parse_request_with [fun _ => Ok None; parse_search_request]
    (search2, requester)
  = parse_search_request (search2, requester).
Proof.
  destruct (parse_search_request (search2, requester)) as [[r|]|e] eqn:E;
    try (vm_compute in E; discriminate).
  apply (@first_handler_wins [fun _ => Ok None; parse_search_request]
           (search2, requester)).
  exists [fun _ => Ok None], parse_search_request, [].
  repeat split; [now repeat constructor | exact E].
Defined.

End ParserMore.

(** ** More about the dispatcher and the responses *)

Module ResponderMore.

Import Parser Descriptor Responder ParserSpec ResponderSpec Observed.
Import Examples MoreExamples.
Import PyBytesFacts ParserFacts EngineFacts ResponderFacts.

Section More.

Variable World : Type.
Variable sock_sendto : World -> bytes -> addr -> res unit * World.
Variable self : responder World.

Let state : Type := Responder.state World.

Lemma split_head (sep : byte) (d : bytes) :
  exists t, split sep d = before sep d :: t.
Proof.
  induction d as [|c d [t IH]]; [now exists []|]. cbn [split before].
  destruct (Byte.eqb c sep); [now eexists|]. rewrite IH. now eexists.
Qed.

Lemma notify_method (data : bytes) :
  startswith (B "NOTIFY") data = true ->
  PyBytes.eqb (before SP (request_line data)) (B "M-SEARCH") = false.
Proof.
  destruct data as [|c data]; [discriminate|]. intros Hn.
  cbn [startswith B] in Hn. apply andb_true_iff in Hn as [Hc _].
  apply Byte.byte_dec_bl in Hc. subst c. reflexivity.
Qed.

(** X4. A datagram that begins with [NOTIFY] is never answered: the turn
    of the loop leaves the state as it was, and returns when the datagram
    is well formed. *)
Theorem notify_is_not_answered (data : bytes) (sender : addr) (st : state) :
  startswith (B "NOTIFY") data = true ->
  snd (run_step sock_sendto self (data, sender) st) = st /\
  (well_formed data = true ->
   run_step sock_sendto self (data, sender) st = (Ok tt, st)).
Proof.
  intros Hn.
  assert (Hv : recognized_verb data = true)
    by (unfold recognized_verb; rewrite Hn; apply orb_true_r).
  assert (Hok : well_formed data = true ->
                run_step sock_sendto self (data, sender) st = (Ok tt, st)).
  { intros Hwf.
    destruct (parse_request_ok data sender Hv Hwf) as (r & Hr & _ & Hl & _).
    destruct (split_head SP (request_line data)) as [t Ht].
    rewrite Ht in Hl. injection Hl as Hm _.
    unfold run_step, bind, lift. rewrite Hr, <- Hm.
    now rewrite (notify_method data Hn). }
  split; [|exact Hok].
  destruct (well_formed data) eqn:Hwf; [now rewrite Hok|].
  unfold run_step, bind, lift.
  now rewrite parse_request_cases, Hv, Hwf.
Qed.

(** *** Where the responses go, and what is logged *)

Lemma has_send_app (a b : list event) :
  has_send (a ++ b) = has_send a || has_send b.
Proof. apply existsb_app. Qed.

Lemma calls_are_not_sends (calls : list event) (dest : addr) :
  forallb is_call calls = true ->
  Forall (sent_to dest) calls /\ has_send calls = false.
Proof.
  induction calls as [|e calls IH]; cbn; [now split|].
  intros H. apply andb_true_iff in H as [He H]. destruct (IH H) as [IH1 IH2].
  destruct e; try discriminate. split; [|exact IH2].
  constructor; [|exact IH1]. intros data d. discriminate.
Qed.

(** A loop that carries the variable [found]. *)
Lemma fold_each_found {A} (body : bool -> A -> M World bool)
  (Q : event -> Prop) (l : list A) :
  (forall s x (st : state) r st', body s x st = (r, st') ->
     exists evs, follows st evs st' /\ Forall Q evs
                 /\ (forall f, r = Ok f -> f = s || has_send evs)) ->
  forall s (st : state) r st', fold_each body l s st = (r, st') ->
    exists evs, follows st evs st' /\ Forall Q evs
                /\ (forall f, r = Ok f -> f = s || has_send evs).
Proof.
  intros Hbody. induction l as [|x l IH]; intros s st r st'; cbn [fold_each].
  - unfold ret. intros [= <- <-]. exists []. split; [apply follows_refl|].
    split; [constructor|]. intros f [= <-]. now rewrite orb_false_r.
  - unfold bind. destruct (body s x st) as [[s1|e] st1] eqn:Eb.
    + intros Hl. destruct (Hbody _ _ _ _ _ Eb) as (e1 & F1 & Q1 & P1).
      destruct (IH _ _ _ _ Hl) as (e2 & F2 & Q2 & P2).
      exists (e1 ++ e2)%list. split; [eapply follows_trans; eassumption|].
      split; [apply Forall_app; now split|].
      intros f Hf. rewrite (P2 f Hf), (P1 s1 eq_refl), has_send_app.
      now rewrite orb_assoc.
    + intros [= <- <-]. destruct (Hbody _ _ _ _ _ Eb) as (e1 & F1 & Q1 & _).
      exists e1. split; [exact F1|]. split; [exact Q1 | discriminate].
Qed.

Lemma respond_type_found (d : service_descriptor World) (fmt : dict value)
  (request : Request) (found : bool) (v : bytes) (st st' : state)
  (r : res bool) :
  respond_type sock_sendto d fmt request found v st = (r, st') ->
  exists evs, follows st evs st' /\ Forall (sent_to (REMOTE request)) evs
              /\ (forall f, r = Ok f -> f = found || has_send evs).
Proof.
  unfold respond_type, bind.
  assert (Hsend : forall (st1 : state) r1 st1',
             match render (OK d) fmt with
             | Ok data =>
                 match send sock_sendto d data (REMOTE request) st1 with
                 | (Ok _, s) => ret true s
                 | (Raise e, s) => (Raise e, s)
                 end
             | Raise e => (Raise e, st1)
             end = (r1, st1') ->
             exists evs, follows st1 evs st1'
               /\ Forall (sent_to (REMOTE request)) evs
               /\ (forall f, r1 = Ok f -> f = found || has_send evs)).
  { intros st1 r1 st1'. destruct (render (OK d) fmt) as [data|e].
    - unfold send. destruct (sendto _ data (REMOTE request) st1)
        as [[[]|e] s] eqn:Es; unfold ret; intros [= <- <-];
        exists [EvSendTo data (REMOTE request)];
        (split; [eapply sendto_follows; exact Es|]);
        (split; [constructor; [now intros data0 d0 [= _ <-] | constructor]|]).
      + intros f [= <-]. cbn. now rewrite orb_true_r.
      + discriminate.
    - intros [= <- <-]. exists []. split; [apply follows_refl|].
      split; [constructor | discriminate]. }
  destruct (negb (startswith (B "ssdp:") v)).
  - unfold lift at 1. destruct (encoded_st fmt) as [b|e].
    + unfold ret at 1. destruct (negb (PyBytes.eqb b v)).
      * unfold ret. intros [= <- <-]. exists [].
        split; [apply follows_refl|]. split; [constructor|].
        intros f [= <-]. now rewrite orb_false_r.
      * unfold lift. apply Hsend.
    + intros [= <- <-]. exists []. split; [apply follows_refl|].
      split; [constructor | discriminate].
  - unfold ret at 1, lift. apply Hsend.
Qed.

Lemma respond_service_found (d : service_descriptor World) (request : Request)
  (found : bool) (service : dict value) (st st' : state) (r : res bool) :
  respond_service sock_sendto d request found service st = (r, st') ->
  exists evs, follows st evs st' /\ Forall (sent_to (REMOTE request)) evs
              /\ (forall f, r = Ok f -> f = found || has_send evs).
Proof.
  unfold respond_service, bind.
  destruct (create_fmt (params d) service st) as [[fmt|e] st1] eqn:Ec;
    pose proof Ec as Hcf; apply create_fmt_calls in Hcf;
    destruct Hcf as (calls & Fc & Hc);
    destruct (@calls_are_not_sends calls (REMOTE request) Hc) as [Q0 N0].
  - intros H.
    eapply (@fold_each_found bytes _ (sent_to (REMOTE request))) in H;
      [|intros s x st0 r0 st0'; apply respond_type_found].
    destruct H as (evs & F & Q & P).
    exists (calls ++ evs)%list. split; [eapply follows_trans; eassumption|].
    split; [apply Forall_app; now split|].
    intros f Hf. rewrite (P f Hf), has_send_app, N0. reflexivity.
  - intros [= <- <-]. exists calls. split; [exact Fc|].
    split; [exact Q0 | discriminate].
Qed.

Lemma respond_all_found (request : Request)
  (ds : list (service_descriptor World)) (found : bool) (st st' : state)
  (r : res bool) :
  respond_all sock_sendto request ds found st = (r, st') ->
  exists evs, follows st evs st' /\ Forall (sent_to (REMOTE request)) evs
              /\ (forall f, r = Ok f -> f = found || has_send evs).
Proof.
  unfold respond_all. intros H.
  eapply (@fold_each_found _ _ (sent_to (REMOTE request))) in H; [exact H|].
  intros s d st0 r0 st0' H0.
  eapply (@fold_each_found _ _ (sent_to (REMOTE request))) in H0; [exact H0|].
  intros s1 x st1 r1 st1'. apply respond_service_found.
Qed.

(** X5. Whatever [respond_ok_static] does and however it ends, it leaves
    the flag and the user id alone, and every datagram it hands to
    [sendto] is addressed to the sender of the request. *)
Theorem responses_go_to_the_requester (request : Request) (st st' : state)
  (r : res unit) :
  respond_ok_static sock_sendto self request st = (r, st') ->
  exists evs, follows st evs st' /\ Forall (sent_to (REMOTE request)) evs.
Proof.
  unfold respond_ok_static, iter_services, bind.
  destruct (self_services self) as [ds|].
  - unfold ret at 1.
    destruct (respond_all sock_sendto request ds false st) as [[found|e] st1]
      eqn:Er; destruct (respond_all_found _ _ _ _ Er) as (evs & F & Q & _).
    + unfold emit. intros [= <- <-].
      exists (evs ++ [EvLogSearch (headers_get (HEADERS request) (B "ST"))
                        found])%list.
      split; [eapply follows_trans; [exact F | apply follows_log]|].
      apply Forall_app. split; [exact Q|].
      constructor; [intros data d; discriminate | constructor].
    + intros [= <- <-]. now exists evs.
  - unfold raise. intros [= <- <-]. exists []. split; [apply follows_refl|].
    constructor.
Qed.

(** X6. When [respond_ok_static] returns, the flag it logs with the
    search is true exactly when it handed at least one response to
    [sendto]. *)
Theorem found_tells_whether_a_response_was_sent (request : Request)
  (st st' : state) :
  respond_ok_static sock_sendto self request st = (Ok tt, st') ->
  exists evs found,
    follows st
      (evs ++ [EvLogSearch (headers_get (HEADERS request) (B "ST")) found])%list
      st' /\
    found = has_send evs.
Proof.
  unfold respond_ok_static, iter_services, bind.
  destruct (self_services self) as [ds|]; [|discriminate].
  unfold ret at 1.
  destruct (respond_all sock_sendto request ds false st) as [[found|e] st1]
    eqn:Er; [|discriminate].
  destruct (respond_all_found _ _ _ _ Er) as (evs & F & _ & P).
  unfold emit. intros [= <-]. exists evs, found.
  split; [eapply follows_trans; [exact F | apply follows_log]|].
  now rewrite (P found eq_refl).
Qed.

(** *** The loop of [run] *)

Lemma run_step_follows (rec : bytes * addr) (st st' : state) (r : res unit) :
  run_step sock_sendto self rec st = (r, st') ->
  exists evs, follows st evs st'.
Proof.
  unfold run_step, bind, lift.
  destruct (parse_request rec) as [[request|]|e].
  - destruct (PyBytes.eqb (METHOD request) (B "M-SEARCH")).
    + unfold respond_ok. destruct (self_services self) as [ds|] eqn:Es.
      * intros H. destruct (responses_go_to_the_requester _ _ H) as (evs & F & _).
        now exists evs.
      * unfold ret. intros [= <- <-]. exists []. apply follows_refl.
    + unfold ret. intros [= <- <-]. exists []. apply follows_refl.
  - unfold ret. intros [= <- <-]. exists []. apply follows_refl.
  - intros [= <- <-]. exists []. apply follows_refl.
Qed.

Lemma run_stopped (queue : list (bytes * addr)) (st : state) :
  running st = 0%Z -> run sock_sendto self queue st = (Ok tt, st).
Proof.
  intros H. destruct queue as [|rec queue]; [reflexivity|].
  cbn [run]. now rewrite H.
Qed.

(** X7. [run] takes the datagrams in the order of the queue, one after
    the other: running it on two queues put end to end is running it on
    the first and then, if that returned, on the second from the state
    reached; an exception ends it there. It never changes the flag. *)
Theorem run_in_order (q1 q2 : list (bytes * addr)) (st : state) :
  run sock_sendto self (q1 ++ q2) st
  = match run sock_sendto self q1 st with
    | (Ok _, st1) => run sock_sendto self q2 st1
    | (Raise e, st1) => (Raise e, st1)
    end /\
  forall r st', run sock_sendto self q1 st = (r, st') ->
                running st' = running st.
Proof.
  split.
  - revert st. induction q1 as [|rec q1 IH]; intros st; [reflexivity|].
    cbn [app run]. destruct (Z.eqb_spec (running st) 0) as [E|E].
    + now rewrite run_stopped.
    + unfold bind.
      destruct (run_step sock_sendto self rec st) as [[[]|e] st1];
        [apply IH | reflexivity].
  - revert st. induction q1 as [|rec q1 IH]; intros st r st'.
    + unfold run, ret. now intros [= _ <-].
    + cbn [run]. destruct (running st =? 0)%Z; [now intros [= _ <-]|].
      unfold bind.
      destruct (run_step sock_sendto self rec st) as [[[]|e] st1] eqn:Es;
        destruct (run_step_follows _ _ Es) as (evs & Hrun & _).
      * intros H. rewrite (IH _ _ _ H). exact Hrun.
      * now intros [= _ <-].
Qed.

Lemma do_notify_follows (nts : bytes) (st st' : state) (r : res unit) :
  do_notify sock_sendto self nts st = (r, st') ->
  exists evs, follows st evs st'.
Proof.
  unfold do_notify, iter_services, bind.
  destruct (self_services self) as [ds|].
  - unfold ret at 1. intros H. apply notify_all_spec in H.
    destruct H as (evs & F & _). now exists evs.
  - unfold raise. intros [= <- <-]. exists []. apply follows_refl.
Qed.

(** X8. After [shutdown], however it ended, [run] reads nothing: on any
    queue it returns at once and leaves the state as it is. *)
Theorem run_stops_after_shutdown (queue : list (bytes * addr))
  (st st' : state) (r : res unit) :
  shutdown sock_sendto self st = (r, st') ->
  run sock_sendto self queue st' = (Ok tt, st').
Proof.
  intros H. apply run_stopped. revert H.
  unfold shutdown, bind at 1, set_running.
  unfold bind at 1, emit at 1. unfold bind at 1, emit at 1.
  unfold bind at 1.
  destruct (do_notify _ _ _ _) as [[[]|e] st4] eqn:En;
    destruct (do_notify_follows _ _ En) as (evs & Hrun & _).
  - unfold bind, emit. intros [= _ <-]. cbn [running log]. exact Hrun.
  - intros [= _ <-]. exact Hrun.
Qed.

(** X9. For a responder without services, every announcement pass raises
    [TypeError] before anything is sent: the scheduler ends with it at
    its first pass, and [shutdown] ends with it after it cleared the flag
    and waited for the two units, without a goodbye and without its log
    lines. *)
Theorem announcing_without_services_raises :
  self_services self = None ->
  (forall nts (st : state),
     do_notify sock_sendto self nts st = (Raise TypeError, st)) /\
  (forall fires (st : state),
     schedule_handler sock_sendto self fires st = (Raise TypeError, st)) /\
  (forall st : state,
     shutdown sock_sendto self st
     = (Raise TypeError,
        log (EvJoin reciever_thread)
          (log (EvJoin schedule_thread)
             (with_running 0 (log (EvSetRunning 0) st))))).
Proof.
  intros Hs.
  assert (Hn : forall nts (st : state),
             do_notify sock_sendto self nts st = (Raise TypeError, st)).
  { intros nts st. unfold do_notify, iter_services, bind. now rewrite Hs. }
  split; [exact Hn|]. split.
  - intros fires st. unfold schedule_handler, bind. now rewrite Hn.
  - intros st. unfold shutdown, bind, set_running, emit. now rewrite Hn.
Qed.

(** X10. A search for a specific target needs the [st] field of every
    service it reaches: when the resolved fields of a service have no
    [st] and the first value of the ST header does not start with
    [ssdp:], [respond_ok_static] ends there with [KeyError], nothing
    being sent for that service or the ones after it, and nothing
    logged. *)
Theorem specific_search_needs_st
  (pre post : list (service_descriptor World)) (d : service_descriptor World)
  (spre spost : list (dict value)) (s fmt : dict value)
  (request : Request) (v : bytes) (vs : list bytes)
  (st st0 st1 st2 : state) (f0 f1 : bool) :
  self_services self = Some (pre ++ d :: post)%list ->
  services d = (spre ++ s :: spost)%list ->
  headers_get (HEADERS request) (B "ST") = v :: vs ->
  startswith (B "ssdp:") v = false ->
  respond_all sock_sendto request pre false st = (Ok f0, st0) ->
  fold_each (respond_service sock_sendto d request) spre f0 st0
  = (Ok f1, st1) ->
  create_fmt (params d) s st1 = (Ok fmt, st2) ->
  get fmt "st" = None ->
  respond_ok_static sock_sendto self request st = (Raise KeyError, st2).
Proof.
  intros Hs Hd Hst Hv H0 H1 Hc Hg.
  unfold respond_ok_static, iter_services, bind. rewrite Hs.
  unfold ret at 1. unfold respond_all in *. rewrite fold_each_app, H0.
  cbn [fold_each]. unfold bind at 1. rewrite Hd, fold_each_app, H1.
  cbn [fold_each]. unfold bind at 1.
  unfold respond_service at 1, bind at 1. rewrite Hc, Hst.
  cbn [fold_each]. unfold bind at 1, respond_type at 1, bind at 1.
  rewrite Hv. cbn [negb]. unfold bind at 1, lift at 1, encoded_st, getitem.
  now rewrite Hg.
Qed.

End More.

Lemma notify_is_not_answered_witness :
  run_step sendto0 self0 (announcement, requester) (st0 []) = (Ok tt, st0 []).
Proof.
  apply (@notify_is_not_answered W sendto0 self0 announcement requester
           (st0 [])); reflexivity.
Defined.

Lemma responses_go_to_the_requester_witness :
  exists evs,
    follows (st0 [true; false]) evs
      (snd (respond_ok_static sendto0 self0 (request_of search2)
              (st0 [true; false]))) /\
    Forall (sent_to requester) evs.
Proof.
  apply (@responses_go_to_the_requester W sendto0 self0 (request_of search2)
           (st0 [true; false]) _ (Raise OSError)).
  reflexivity.
Defined.

Lemma found_tells_whether_a_response_was_sent_witness :
  exists evs found,
    follows (st0 [])
      (evs ++ [EvLogSearch [B "urn:test:device:3"] found])%list
      (snd (respond_ok_static sendto0 self0
              (request_of (search "urn:test:device:3")) (st0 []))) /\
    found = has_send evs.
Proof.
  apply (@found_tells_whether_a_response_was_sent W sendto0 self0
           (request_of (search "urn:test:device:3")) (st0 [])).
  reflexivity.
Defined.

Lemma run_in_order_witness :
  run sendto0 self0
    [(search "ssdp:all", requester); (short_line, requester);
     (search2, requester)] (st0 [])
  = (Raise ValueError,
     snd (run sendto0 self0 [(search "ssdp:all", requester)] (st0 []))).
Proof.
  destruct (@run_in_order W sendto0 self0
              [(search "ssdp:all", requester)]
              [(short_line, requester); (search2, requester)] (st0 []))
    as [H _].
  cbn [app] in H. rewrite H. reflexivity.
Defined.

Lemma run_stops_after_shutdown_witness :
  run sendto0 self0 [(search "ssdp:all", requester)]
    (snd (shutdown sendto0 self0 (st0 [])))
  = (Ok tt, snd (shutdown sendto0 self0 (st0 []))).
Proof.
  apply (@run_stops_after_shutdown W sendto0 self0
           [(search "ssdp:all", requester)] (st0 []) _ (Ok tt)).
  reflexivity.
Defined.

Lemma announcing_without_services_raises_witness :
  schedule_handler sendto0 self_none 3 (st0 []) = (Raise TypeError, st0 []) /\
  fst (shutdown sendto0 self_none (st0 [])) = Raise TypeError /\
  trace (snd (shutdown sendto0 self_none (st0 [])))
  = [EvSetRunning 0; EvJoin schedule_thread; EvJoin reciever_thread].
Proof.
  destruct (@announcing_without_services_raises W sendto0 self_none eq_refl)
    as (_ & Hsched & Hdown).
  split; [apply Hsched|]. rewrite Hdown. split; reflexivity.
Defined.

Lemma specific_search_needs_st_witness :
  exists st2,
    respond_ok_static sendto0 self1
      (request_of (search "urn:test:device:1")) (st0 [])
    = (Raise KeyError, st2) /\
    List.length (sends (trace st2)) = 1%nat.
Proof.
  eexists. split.
  - eapply (@specific_search_needs_st W sendto0 self1 [] [] descriptor1
              [service1] [service2] service_no_st _
              (request_of (search "urn:test:device:1"))
              (B "urn:test:device:1") []); reflexivity.
  - reflexivity.
Defined.

End ResponderMore.

(** ** More about [create_fmt] and the rendering *)

Module TemplateMore.

Import Parser Descriptor Responder TemplateSpec ResponderSpec Observed.
Import Examples MoreExamples.
Import DictFacts FormatFacts EngineFacts TemplateFacts MergeFacts.

Section More.

Variable World : Type.

Implicit Types (params : dict (param World)) (service fmt : dict value).

Lemma get_in_pair {V} (m : dict V) (k : string) (v : V) :
  get m k = Some v -> In (k, v) m.
Proof.
  induction m as [|[k0 v0] m IH]; cbn [get]; [discriminate|].
  destruct (String.eqb_spec k0 k) as [->|_].
  - intros [= ->]. now left.
  - intros H. right. now apply IH.
Qed.

(** The pass raises at the latest on a placeholder whose name is not a
    key of the mapping. *)
Lemma resolve_entries_dangling (todo : dict value) :
  forall (done rest : dict value) (k name : string),
    In (k, VStr (placeholder name)) todo ->
    plain_name name = true ->
    ~ In name (keys (done ++ todo ++ rest)) ->
    exists e, resolve_entries done todo rest = Raise e.
Proof.
  induction todo as [|[k0 v0] todo IH]; intros done rest k name Hin Hp Hk;
    [contradiction|].
  assert (Hnext : forall v',
             exists e, resolve_entries (done ++ [(k0, v')]) todo rest = Raise e
             \/ (k0, v0) = (k, VStr (placeholder name))).
  { intros v'. destruct Hin as [Hin|Hin]; [exists KeyError; now right|].
    destruct (IH (done ++ [(k0, v')])%list rest k name Hin Hp) as [e He].
    - intros H. apply Hk. rewrite !keys_app in *. cbn [keys map fst] in *.
      rewrite <- app_assoc in H. exact H.
    - exists e. now left. }
  cbn [resolve_entries].
  destruct v0 as [s|n|b].
  - destruct (format (done ++ ((k0, VStr s) :: todo) ++ rest) s) as [s'|e] eqn:Ef;
      [|now exists e].
    destruct (Hnext (VStr s')) as [e [He|He]]; [now exists e|].
    injection He as -> ->.
    rewrite (format_placeholder _ name Hp), (get_notin _ _ Hk) in Ef.
    discriminate.
  - destruct (Hnext (VInt n)) as [e [He|He]]; [now exists e | discriminate].
  - destruct (Hnext (VBytes b)) as [e [He|He]]; [now exists e | discriminate].
Qed.

(** X11. When an entry of the service is the placeholder of a name that
    is neither a key of the params nor a key of the service, [create_fmt]
    does not return: it raises. *)
Theorem dangling_placeholder_raises params service (k name : string)
  (st : state World) :
  NoDup (keys params) ->
  get service k = Some (VStr (placeholder name)) ->
  plain_name name = true ->
  ~ In name (keys params) ->
  ~ In name (keys service) ->
  exists e, fst (create_fmt params service st) = Raise e.
Proof.
  intros Hnd Hk Hp Hn1 Hn2. rewrite create_fmt_closed by exact Hnd.
  cbn [fst]. unfold single_pass.
  apply (@resolve_entries_dangling _ [] [] k name).
  - apply get_in_pair. now rewrite overlay_get, Hk.
  - exact Hp.
  - cbn [app]. rewrite app_nil_r. intros Hin.
    apply get_in in Hin as [v Hv]. rewrite overlay_get in Hv.
    rewrite (get_notin _ _ Hn2) in Hv.
    apply get_some_in in Hv. rewrite keys_evaluated in Hv. contradiction.
Qed.

(** X12. The mapping that [create_fmt] returns has the keys of the
    params, in their order, followed by other keys; a key is in it
    exactly when it is a key of the params or of the service; and no key
    is in it twice. *)
Theorem create_fmt_keys params service fmt (st st' : state World) :
  NoDup (keys params) ->
  create_fmt params service st = (Ok fmt, st') ->
  NoDup (keys fmt) /\
  (exists new, keys fmt = (keys params ++ new)%list) /\
  (forall k, In k (keys fmt) <-> In k (keys params) \/ In k (keys service)).
Proof.
  intros Hnd Hc. rewrite create_fmt_closed in Hc by exact Hnd.
  injection Hc as Hc _. unfold single_pass in Hc.
  apply resolve_entries_shape in Hc as (todo & -> & Hkeys). cbn [app].
  rewrite Hkeys.
  set (ev := fst (evaluated params (world st))).
  assert (Hev : keys ev = keys params) by apply keys_evaluated.
  split; [|split].
  - apply overlay_keys_nodup. now rewrite Hev.
  - rewrite <- Hev. apply overlay_keys_prefix.
  - intros k. split.
    + intros Hin. apply get_in in Hin as [v Hv]. rewrite overlay_get in Hv.
      destruct (get service k) as [v'|] eqn:Es.
      * right. now apply get_some_in in Es.
      * left. rewrite <- Hev. now apply get_some_in in Hv.
    + intros Hin.
      assert (Hsome : exists v, get (overlay ev service) k = Some v).
      { rewrite overlay_get. destruct (get service k) as [v'|] eqn:Es;
          [now exists v'|].
        destruct Hin as [Hin|Hin].
        - rewrite <- Hev in Hin. now apply get_in.
        - apply get_in in Hin as [v Hv]. congruence. }
      destruct Hsome as [v Hv]. now apply get_some_in in Hv.
Qed.

End More.

(** *** What a rendered datagram looks like *)

Lemma byte_of_ascii_lf (c : ascii) :
  Byte.eqb (byte_of_ascii c) LF = Ascii.eqb c "010".
Proof.
  destruct (Ascii.eqb_spec c "010") as [->|Hne]; [reflexivity|].
  destruct (Byte.eqb (byte_of_ascii c) LF) eqn:E; [|reflexivity].
  apply Byte.byte_dec_bl in E. apply (f_equal ascii_of_byte) in E.
  rewrite ascii_of_byte_of_ascii in E. contradiction.
Qed.

Lemma encode_crlf_framed (s : string) :
  forall (data : bytes) (after_cr : bool),
    encode_ascii (crlf s) = Ok data -> lf_follows_cr after_cr data = true.
Proof.
  induction s as [|c s IH]; intros data after_cr.
  - cbn. now intros [= <-].
  - cbn [crlf]. destruct (Ascii.eqb_spec c "010") as [->|Hne].
    + cbn [encode_ascii]. cbn [N_of_ascii N.ltb N.compare].
      change (N_of_ascii "013" <? 128)%N with true.
      change (N_of_ascii "010" <? 128)%N with true. cbv iota.
      destruct (encode_ascii (crlf s)) as [d|e] eqn:Ed; [|discriminate].
      intros [= <-]. cbn [lf_follows_cr].
      change (byte_of_ascii "013") with CR.
      change (byte_of_ascii "010") with LF.
      change (Byte.eqb CR LF) with false. change (Byte.eqb CR CR) with true.
      change (Byte.eqb LF LF) with true. change (Byte.eqb LF CR) with false.
      cbn [andb]. now apply IH.
    + cbn [encode_ascii]. destruct (N_of_ascii c <? 128)%N; [|discriminate].
      destruct (encode_ascii (crlf s)) as [d|e] eqn:Ed; [|discriminate].
      intros [= <-]. cbn [lf_follows_cr]. rewrite byte_of_ascii_lf.
      apply Ascii.eqb_neq in Hne. rewrite Hne. cbn [andb]. now apply IH.
Qed.

(** X13. In every datagram that [render] returns, as it is sent by
    [do_notify] and [respond_ok_static], each line feed comes right
    after a carriage return. *)
Theorem render_ends_lines_with_crlf (template : string) (fmt : dict value)
  (data : bytes) :
  render template fmt = Ok data -> lf_follows_cr false data = true.
Proof.
  unfold render. destruct (format fmt template) as [s|e]; [|discriminate].
  apply encode_crlf_framed.
Qed.

Lemma to_N_byte_of_ascii (c : ascii) : Byte.to_N (byte_of_ascii c) = N_of_ascii c.
Proof. apply Byte.to_of_N. symmetry. apply byte_of_ascii_via_N. Qed.

Lemma encode_ascii_ok (s : string) (data : bytes) :
  encode_ascii s = Ok data ->
  forallb (fun b => (Byte.to_N b <? 128)%N) data = true.
Proof.
  revert data. induction s as [|c s IH]; intros data; cbn [encode_ascii].
  - now intros [= <-].
  - destruct (N_of_ascii c <? 128)%N eqn:Ec; [|discriminate].
    destruct (encode_ascii s) as [d|e]; [|discriminate]. intros [= <-].
    cbn [forallb]. now rewrite to_N_byte_of_ascii, Ec, (IH d eq_refl).
Qed.

Lemma encode_ascii_bad (s : string) :
  string_forallb is_ascii s = false ->
  encode_ascii s = Raise UnicodeEncodeError.
Proof.
  induction s as [|c s IH]; cbn [string_forallb encode_ascii]; [discriminate|].
  unfold is_ascii at 1. destruct (N_of_ascii c <? 128)%N; [|reflexivity].
  cbn [andb]. intros H. now rewrite (IH H).
Qed.

Lemma crlf_is_ascii (s : string) :
  string_forallb is_ascii (crlf s) = string_forallb is_ascii s.
Proof.
  induction s as [|c s IH]; [reflexivity|]. cbn [crlf].
  destruct (Ascii.eqb_spec c "010") as [->|_]; cbn [string_forallb];
    now rewrite IH.
Qed.

(** X14. A datagram that [render] returns holds bytes below 128 only;
    and when the formatted template holds a character that is not
    ASCII, [render] raises [UnicodeEncodeError]. *)
Theorem render_is_ascii_or_raises (template : string) (fmt : dict value) :
  (forall data, render template fmt = Ok data ->
                forallb (fun b => (Byte.to_N b <? 128)%N) data = true) /\
  (forall s, format fmt template = Ok s ->
             string_forallb is_ascii s = false ->
             render template fmt = Raise UnicodeEncodeError).
Proof.
  unfold render. split.
  - intros data. destruct (format fmt template) as [s|e]; [|discriminate].
    apply encode_ascii_ok.
  - intros s -> Hs. apply encode_ascii_bad. now rewrite crlf_is_ascii.
Qed.

Lemma dangling_placeholder_raises_witness :
  exists e, fst (create_fmt params0 service_dangling (st0 [])) = Raise e.
Proof.
  apply (@dangling_placeholder_raises W params0 service_dangling
           "location"%string "scheme"%string (st0 [])).
  - unfold params0. repeat (apply NoDup_cons; [simpl; intuition discriminate|]).
    apply NoDup_nil.
  - reflexivity.
  - reflexivity.
  - simpl. intuition discriminate.
  - simpl. intuition discriminate.
Defined.

Lemma create_fmt_keys_witness :
  exists fmt,
    fst (create_fmt params0 service1 (st0 [])) = Ok fmt /\
    NoDup (keys fmt) /\
    (exists new, keys fmt = (keys params0 ++ new)%list) /\
    (forall k, In k (keys fmt) <-> In k (keys params0) \/ In k (keys service1)).
Proof.
  eexists. split; [reflexivity|].
  eapply (@create_fmt_keys W params0 service1 _ (st0 [])).
  - unfold params0. repeat (apply NoDup_cons; [simpl; intuition discriminate|]).
    apply NoDup_nil.
  - reflexivity.
Defined.

Lemma render_ends_lines_with_crlf_witness :
  lf_follows_cr false
    (B "HTTP/1.1 200 OK" ++ [CR; LF] ++ B "ST: upnp:rootdevice"
       ++ [CR; LF; CR; LF])%list = true.
Proof.
  apply (@render_ends_lines_with_crlf
           (String "H" (String "T" (String "T" (String "P" (String "/"
            (String "1" (String "." (String "1" (String " " (String "2"
            (String "0" (String "0" (String " " (String "O" (String "K"
            (String "010" (String "S" (String "T" (String ":" (String " "
            (String "{" (String "s" (String "t" (String "}"
            (String "010" (String "010" EmptyString))))))))))))))))))))))))))
           [("st"%string, VStr "upnp:rootdevice")]).
  reflexivity.
Defined.

Lemma render_is_ascii_or_raises_witness :
  forallb (fun b => (Byte.to_N b <? 128)%N) (B "USN: uuid:2") = true /\
  render "USN: {usn}" [("usn"%string, VStr (String "233" EmptyString))]
  = Raise UnicodeEncodeError.
Proof.
  split.
  - apply (@render_is_ascii_or_raises "USN: {usn}"
             [("usn"%string, VStr "uuid:2")]). reflexivity.
  - apply (@render_is_ascii_or_raises "USN: {usn}"
             [("usn"%string, VStr (String "233" EmptyString))])
      with (s := ("USN: " ++ String "233" EmptyString)%string);
      reflexivity.
Defined.

End TemplateMore.

(** ** More about the spoofing responder *)

Module SpoofingMore.

Import Parser Descriptor Responder Spoofing SpoofingSend.
Import Examples MoreExamples.

Section More.

Variable World : Type.
Variable getpwnam : string -> option Z.
Variable getgrnam : string -> option Z.

Let state : Type := Responder.state World.

(** X15. [send] of the spoofing responder never hands a datagram to the
    raw socket: whatever the modules [ip] and [udp] return, it raises and
    leaves the state as it was, the last obstacle being the attribute
    [REMOTE] it asks of the address tuple. *)
Theorem spoofing_send_never_sends
  (udp_packet ip_packet : Type) (import_ip_udp : res unit)
  (udp_Packet : Z -> Z -> bytes -> res udp_packet)
  (udp_assemble : udp_packet -> Z -> res bytes)
  (ip_Packet : string -> param World -> bytes -> Z -> Z -> res ip_packet)
  (ip_assemble : ip_packet -> Z -> res bytes)
  (raw_sendto : World -> bytes -> addr -> res unit * World)
  (self : spoofing_responder World) (d : service_descriptor World)
  (response_data : bytes) (REQUEST : addr) (st : state) :
  exists e,
    send import_ip_udp udp_Packet udp_assemble ip_Packet ip_assemble
      raw_sendto self d response_data REQUEST st
    = (Raise e, st).
Proof.
  unfold send, bind, lift, tuple_REMOTE.
  destruct import_ip_udp as [[]|e]; [|now exists e].
  destruct (udp_Packet _ _ _) as [rp|e]; [|now exists e].
  destruct (getitem (params d) "ip") as [src|e]; [|now exists e].
  destruct (udp_assemble rp 0%Z) as [payload|e]; [|now exists e].
  destruct (ip_Packet _ _ _ _ _) as [ipp|e]; [|now exists e].
  destruct (ip_assemble ipp 0%Z) as [frame|e]; [|now exists e].
  now exists AttributeError.
Qed.

(** X16. [drop_privileges], called as the superuser with a user name or
    a group name that the system does not know, raises [KeyError] before
    it changes anything: the groups, the group id and the user id are as
    they were. *)
Theorem drop_privileges_unknown_name (uid_name gid_name : string) (st : state) :
  uid st = 0%Z ->
  getpwnam uid_name = None \/ getgrnam gid_name = None ->
  drop_privileges getpwnam getgrnam uid_name gid_name st = (Raise KeyError, st).
Proof.
  intros Hroot Hname. unfold drop_privileges. rewrite Hroot. cbn [Z.eqb negb].
  unfold bind, lookup.
  destruct (getpwnam uid_name) as [u|]; [|reflexivity].
  destruct Hname as [H|H]; [discriminate|]. now rewrite H.
Qed.

(** X17. [drop_privileges], called as the superuser with names the system
    knows, the user not being the superuser, clears the groups, sets the
    group id and the user id and then the mask, in this order, and leaves
    the process with the user id of that user; called again, with any
    names, it changes nothing and does not look the names up. *)
Theorem drop_privileges_once (uid_name gid_name : string) (u g : Z)
  (st : state) :
  uid st = 0%Z ->
  getpwnam uid_name = Some u ->
  getgrnam gid_name = Some g ->
  u <> 0%Z ->
  exists st1,
    drop_privileges getpwnam getgrnam uid_name gid_name st = (Ok tt, st1) /\
    uid st1 = u /\
    trace st1 = (trace st ++ [EvSetgroups []; EvSetgid g; EvSetuid u;
                              EvUmask 63])%list /\
    forall name1 name2,
      drop_privileges getpwnam getgrnam name1 name2 st1 = (Ok tt, st1).
Proof.
  intros Hroot Hu Hg Hne. eexists. split; [|split; [|split]].
  - unfold drop_privileges. rewrite Hroot. cbn [Z.eqb negb].
    unfold bind, lookup. rewrite Hu, Hg. unfold ret, emit, setuid.
    reflexivity.
  - reflexivity.
  - cbn [trace log with_uid]. now rewrite <- !app_assoc.
  - intros name1 name2. unfold drop_privileges. cbn [uid log with_uid].
    destruct (Z.eqb_spec u 0) as [E|_]; [contradiction | reflexivity].
Qed.

End More.

Lemma drop_privileges_unknown_name_witness :
  drop_privileges getpwnam0 getgrnam0 "nobody" "staff" root1
  = (Raise KeyError, root1).
Proof.
  apply (@drop_privileges_unknown_name W getpwnam0 getgrnam0 "nobody" "staff"
           root1); [reflexivity | right; reflexivity].
Defined.

Lemma drop_privileges_once_witness :
  exists st1,
    drop_privileges getpwnam0 getgrnam0 "nobody" "nogroup" root1
    = (Ok tt, st1) /\
    uid st1 = 65534%Z /\
    trace st1 = ([] ++ [EvSetgroups []; EvSetgid 65534; EvSetuid 65534;
                        EvUmask 63])%list /\
    forall name1 name2,
      drop_privileges getpwnam0 getgrnam0 name1 name2 st1 = (Ok tt, st1).
Proof.
  apply (@drop_privileges_once W getpwnam0 getgrnam0 "nobody" "nogroup"
           65534%Z 65534%Z root1); try reflexivity. discriminate.
Defined.

End SpoofingMore.
